(** * PiecewiseLinearTwoPhaseMaterialParams: sample tables of a two-phase
      material law, their finalization and their views

    Shallow embedding of
    [opm/material/fluidmatrixinteractions/PiecewiseLinearTwoPhaseMaterialParams.hpp].

    - The template parameter [TraitsT] becomes the class [Traits]: the scalar
      type with the one operation the header applies to it, [operator>].
    - The template parameter [VectorT] becomes a [container_kind]: the two
      [std::is_const_v] facts the [if constexpr] of
      [swapOrderIfPossibleThrowOtherwise_] looks at.  The contents of a
      container are a [list Scalar].
    - Exceptions and undefined element accesses are results [Err e]; every
      member function runs in the monad [M], which also records the guard
      calls and order tests it executes. *)

From Stdlib Require Import String Floats ZArith PArith.
From stdpp Require Import base list sorting.

(** ** Scalars *)

(** [TraitsT::Scalar] with [operator>] and the value-initialised scalar that
    [resize] pads with. *)
Class Traits := {
  Scalar : Type;
  scalar_gt : Scalar -> Scalar -> bool;
  scalar_zero : Scalar
}.

(** [a > b] and [b > a] never hold together.  True of every arithmetic type,
    IEEE doubles with NaN included. *)
Class AsymmetricGt (T : Traits) : Prop :=
  scalar_gt_asym : forall a b : Scalar, scalar_gt a b = true -> scalar_gt b a = false.

(** The default instantiation, [Scalar = double]: binary64 with the IEEE
    comparison ([a > b] is [b < a]). *)
Definition double_gt (a b : float) : bool := PrimFloat.ltb b a.

#[export] Instance double_traits : Traits :=
  {| Scalar := float; scalar_gt := double_gt; scalar_zero := 0%float |}.

(** ** Results, events and the monad of member functions *)

Inductive error : Type :=
| LogicError (what : string)   (* OPM_THROW(std::logic_error, what) *)
| NotFinalized                 (* EnsureFinalized::check() on an unfinalized object *)
| AlreadyFinalized             (* EnsureFinalized::finalize() invoked a second time *)
| AssertionFailed              (* assert(...) of a setter *)
| OutOfBounds.                 (* front()/back() of an empty container, operator[] or
                                  std::copy past the end: undefined in C++ *)

Inductive result (A : Type) : Type :=
| Ok (a : A)
| Err (e : error).
Arguments Ok {A} a.
Arguments Err {A} e.

Inductive event : Type :=
| GuardFinalize                        (* EnsureFinalized::finalize() is called *)
| GuardCheck                           (* EnsureFinalized::check() is called *)
| OrientationTest (descending : bool)  (* x.front() > x.back(), lines 89, 92, 95 *)
| GateTest (fires : bool)              (* swValues.front() > values.back(), line 249 *)
| Reversal.                            (* the swap loop of lines 253-258 is entered *)

Definition M (A : Type) : Type := (list event * result A)%type.

Definition ret {A} (a : A) : M A := ([], Ok a).
Definition raise {A} (e : error) : M A := ([], Err e).
Definition emit (ev : event) : M unit := ([ev], Ok tt).

Definition bind {A B} (m : M A) (f : A -> M B) : M B :=
  match m with
  | (tr, Ok a) => (tr ++ fst (f a), snd (f a))
  | (tr, Err e) => (tr, Err e)
  end.

Definition trace {A} (m : M A) : list event := fst m.
Definition outcome {A} (m : M A) : result A := snd m.

Declare Scope params_scope.
Delimit Scope params_scope with params.
Notation "x <- m ;; k" := (bind m (fun x => k))
  (at level 100, m at next level, right associativity) : params_scope.
Notation "m ;; k" := (bind m (fun _ => k))
  (at level 100, right associativity) : params_scope.
Open Scope params_scope.

(** ** EnsureFinalized *)

(** Modelled from the spec: [opm/material/common/EnsureFinalized.hpp], the
    base class of the parameter object, is not part of this unit.  The spec
    describes a finalize guard with the two states "not yet finalized" and
    "already finalized" (6, 9); [finalize] marks the object as finalized and
    "a guard fails if invoked a second time" (4.1); [check] "fails loudly if
    reads occur pre-finalization" (6). *)
Inductive EnsureFinalized : Type := Unfinalized | Finalized.

Definition EnsureFinalized_finalize (g : EnsureFinalized) : M EnsureFinalized :=
  emit GuardFinalize ;;
  match g with
  | Unfinalized => ret Finalized
  | Finalized => raise AlreadyFinalized
  end.

Definition EnsureFinalized_check (g : EnsureFinalized) : M unit :=
  emit GuardCheck ;;
  match g with
  | Finalized => ret tt
  | Unfinalized => raise NotFinalized
  end.

(** ** Containers *)

(** What the [if constexpr] of line 252 asks about [ValueVector]. *)
Record container_kind : Type := {
  value_type_is_const : bool;   (* std::is_const_v<typename ValueVector::value_type> *)
  vector_is_const : bool        (* std::is_const_v<ValueVector> *)
}.

Definition is_mutable (k : container_kind) : bool :=
  negb (value_type_is_const k) && negb (vector_is_const k).

(** [std::vector<Scalar>], the default [VectorT]. *)
Definition owning : container_kind :=
  {| value_type_is_const := false; vector_is_const := false |}.

(** A view over [const Scalar], the typical [ViewType] of [make_view]. *)
Definition const_view : container_kind :=
  {| value_type_is_const := true; vector_is_const := false |}.

Section Table.
Context {T : Traits}.

Definition ValueVector : Type := list Scalar.

(** [v.front()], [v.back()] and [v[i]]: defined on a valid position only. *)
Definition front (v : ValueVector) : M Scalar :=
  match head v with
  | Some a => ret a
  | None => raise OutOfBounds
  end.

Definition back (v : ValueVector) : M Scalar :=
  match last v with
  | Some a => ret a
  | None => raise OutOfBounds
  end.

Definition at_index (v : ValueVector) (i : nat) : M Scalar :=
  match v !! i with
  | Some a => ret a
  | None => raise OutOfBounds
  end.

(** [std::swap(v[i], v[j])]. *)
Definition std_swap (v : ValueVector) (i j : nat) : M ValueVector :=
  a <- at_index v i ;;
  b <- at_index v j ;;
  ret (<[j := a]> (<[i := b]> v)).

(** [v.resize(n)] is stdpp's [resize n scalar_zero v].
    [std::copy(src.begin(), src.end(), dst.begin())] overwrites the leading
    [src.size()] elements of [dst]. *)
Definition std_copy (src dst : ValueVector) : M ValueVector :=
  if decide (length src <= length dst)
  then ret (src ++ drop (length src) dst)
  else raise OutOfBounds.

(** The [for] loop of lines 253-258, by the number of iterations left:
    [origSampleIdx] runs from [0] while it is below [swValues.size() / 2].
    Both swaps take their second index from [swValues.size()].
    The counter [origSampleIdx] is declared [unsigned] and compared with a
    [size_t]; the header fixes the width of neither.  The model takes the
    number of samples to lie in the range of the counter, where it counts as
    a natural number does. *)
Fixpoint swap_loop (remaining origSampleIdx : nat) (swValues values : ValueVector)
  : M (ValueVector * ValueVector) :=
  match remaining with
  | 0 => ret (swValues, values)
  | S remaining' =>
      let newSampleIdx := length swValues - origSampleIdx - 1 in
      swValues' <- std_swap swValues origSampleIdx newSampleIdx ;;
      values' <- std_swap values origSampleIdx newSampleIdx ;;
      swap_loop remaining' (S origSampleIdx) swValues' values'
  end.

Definition immutable_message : string :=
  "Saturation values in interpolation table provided in wrong order, but table is immutable".

(** Lines 245-264.  The two references are returned as the new contents. *)
Definition swapOrderIfPossibleThrowOtherwise_ (k : container_kind)
    (swValues values : ValueVector) : M (ValueVector * ValueVector) :=
  f <- front swValues ;;
  b <- back values ;;
  emit (GateTest (scalar_gt f b)) ;;
  if scalar_gt f b then
    if is_mutable k then
      emit Reversal ;;
      swap_loop (length swValues / 2) 0 swValues values
    else raise (LogicError immutable_message)
  else ret (swValues, values).

(** One of the three statements of lines 89-96:
    [if (x.front() > x.back()) swapOrderIfPossibleThrowOtherwise_(x, y);] *)
Definition revert_if_descending (k : container_kind)
    (swValues values : ValueVector) : M (ValueVector * ValueVector) :=
  f <- front swValues ;;
  b <- back swValues ;;
  emit (OrientationTest (scalar_gt f b)) ;;
  if scalar_gt f b
  then swapOrderIfPossibleThrowOtherwise_ k swValues values
  else ret (swValues, values).

(** ** The parameter object *)

Record PiecewiseLinearTwoPhaseMaterialParams (k : container_kind) : Type := {
  finalized_ : EnsureFinalized;       (* the EnsureFinalized base *)
  SwPcwnSamples_ : ValueVector;
  SwKrwSamples_ : ValueVector;
  SwKrnSamples_ : ValueVector;
  pcwnSamples_ : ValueVector;
  krwSamples_ : ValueVector;
  krnSamples_ : ValueVector
}.
Arguments finalized_ {k} _.
Arguments SwPcwnSamples_ {k} _.
Arguments SwKrwSamples_ {k} _.
Arguments SwKrnSamples_ {k} _.
Arguments pcwnSamples_ {k} _.
Arguments krwSamples_ {k} _.
Arguments krnSamples_ {k} _.

Abbreviation Params := PiecewiseLinearTwoPhaseMaterialParams.

(** Lines 89-96: the three statements after the guard call. *)
Definition normalize_order {k} (p : Params k) : M (Params k) :=
  Pcwn <- revert_if_descending k (SwPcwnSamples_ p) (pcwnSamples_ p) ;;
  Krw <- revert_if_descending k (SwKrwSamples_ p) (krwSamples_ p) ;;
  Krn <- revert_if_descending k (SwKrnSamples_ p) (krnSamples_ p) ;;
  ret {| finalized_ := finalized_ p;
         SwPcwnSamples_ := fst Pcwn; SwKrwSamples_ := fst Krw; SwKrnSamples_ := fst Krn;
         pcwnSamples_ := snd Pcwn; krwSamples_ := snd Krw; krnSamples_ := snd Krn |}.

(** Lines 83-97. *)
Definition finalize {k} (p : Params k) : M (Params k) :=
  g <- EnsureFinalized_finalize (finalized_ p) ;;
  normalize_order
    {| finalized_ := g;
       SwPcwnSamples_ := SwPcwnSamples_ p; SwKrwSamples_ := SwKrwSamples_ p;
       SwKrnSamples_ := SwKrnSamples_ p; pcwnSamples_ := pcwnSamples_ p;
       krwSamples_ := krwSamples_ p; krnSamples_ := krnSamples_ p |}.

(** Lines 59-61: the default constructor. *)
Definition default_params (k : container_kind) : Params k :=
  {| finalized_ := Unfinalized;
     SwPcwnSamples_ := []; SwKrwSamples_ := []; SwKrnSamples_ := [];
     pcwnSamples_ := []; krwSamples_ := []; krnSamples_ := [] |}.

(** The object of lines 69-74, before the constructor body runs. *)
Definition initialized (k : container_kind)
    (SwPcwnSamples pcwnSamples SwKrwSamples krwSamples SwKrnSamples krnSamples : ValueVector)
  : Params k :=
  {| finalized_ := Unfinalized;
     SwPcwnSamples_ := SwPcwnSamples; SwKrwSamples_ := SwKrwSamples;
     SwKrnSamples_ := SwKrnSamples; pcwnSamples_ := pcwnSamples;
     krwSamples_ := krwSamples; krnSamples_ := krnSamples |}.

(** Lines 63-77: the constructor from six sequences. *)
Definition make_params (k : container_kind)
    (SwPcwnSamples pcwnSamples SwKrwSamples krwSamples SwKrnSamples krnSamples : ValueVector)
  : M (Params k) :=
  finalize (initialized k SwPcwnSamples pcwnSamples SwKrwSamples krwSamples
              SwKrnSamples krnSamples).

(** The six accessors, lines 102-135, 161-165, 192-196. *)
Definition SwKrwSamples {k} (p : Params k) : M ValueVector :=
  EnsureFinalized_check (finalized_ p) ;; ret (SwKrwSamples_ p).

Definition SwKrnSamples {k} (p : Params k) : M ValueVector :=
  EnsureFinalized_check (finalized_ p) ;; ret (SwKrnSamples_ p).

Definition SwPcwnSamples {k} (p : Params k) : M ValueVector :=
  EnsureFinalized_check (finalized_ p) ;; ret (SwPcwnSamples_ p).

Definition pcwnSamples {k} (p : Params k) : M ValueVector :=
  EnsureFinalized_check (finalized_ p) ;; ret (pcwnSamples_ p).

Definition krwSamples {k} (p : Params k) : M ValueVector :=
  EnsureFinalized_check (finalized_ p) ;; ret (krwSamples_ p).

Definition krnSamples {k} (p : Params k) : M ValueVector :=
  EnsureFinalized_check (finalized_ p) ;; ret (krnSamples_ p).

(** The body shared by the three setters: assert (taken as enabled), two
    [resize], two [std::copy]. *)
Definition set_samples (SwValues values old_sw old_values : ValueVector)
  : M (ValueVector * ValueVector) :=
  (if decide (length SwValues = length values) then ret tt else raise AssertionFailed) ;;
  let n := length SwValues in
  sw <- std_copy SwValues (resize n scalar_zero old_sw) ;;
  vals <- std_copy values (resize n scalar_zero old_values) ;;
  ret (sw, vals).

(** Lines 142-153. *)
Definition setPcnwSamples {k} (p : Params k) (SwValues values : ValueVector)
  : M (Params k) :=
  new <- set_samples SwValues values (SwPcwnSamples_ p) (pcwnSamples_ p) ;;
  ret {| finalized_ := finalized_ p;
         SwPcwnSamples_ := fst new; SwKrwSamples_ := SwKrwSamples_ p;
         SwKrnSamples_ := SwKrnSamples_ p; pcwnSamples_ := snd new;
         krwSamples_ := krwSamples_ p; krnSamples_ := krnSamples_ p |}.

(** Lines 173-184. *)
Definition setKrwSamples {k} (p : Params k) (SwValues values : ValueVector)
  : M (Params k) :=
  new <- set_samples SwValues values (SwKrwSamples_ p) (krwSamples_ p) ;;
  ret {| finalized_ := finalized_ p;
         SwPcwnSamples_ := SwPcwnSamples_ p; SwKrwSamples_ := fst new;
         SwKrnSamples_ := SwKrnSamples_ p; pcwnSamples_ := pcwnSamples_ p;
         krwSamples_ := snd new; krnSamples_ := krnSamples_ p |}.

(** Lines 204-215. *)
Definition setKrnSamples {k} (p : Params k) (SwValues values : ValueVector)
  : M (Params k) :=
  new <- set_samples SwValues values (SwKrnSamples_ p) (krnSamples_ p) ;;
  ret {| finalized_ := finalized_ p;
         SwPcwnSamples_ := SwPcwnSamples_ p; SwKrwSamples_ := SwKrwSamples_ p;
         SwKrnSamples_ := fst new; pcwnSamples_ := pcwnSamples_ p;
         krwSamples_ := krwSamples_ p; krnSamples_ := snd new |}.

(** ** make_view *)

(** Modelled from the spec: the [make_view<T>] of a single buffer is declared
    with the buffer types, outside this unit.  The spec (4.2): "construct a
    reference/view over the owning sequence's memory (no copy)"; the view has
    the elements of the buffer. *)
Definition make_buffer_view (v : ValueVector) : ValueVector := v.

(** Lines 283-304.  [vk] is [ViewType]; the [static_assert] compares element
    types, which are [Scalar] on both sides here. *)
Definition make_view {k} (vk : container_kind) (params : Params k) : M (Params vk) :=
  SwPcwn <- SwPcwnSamples params ;;
  pcwn <- pcwnSamples params ;;
  SwKrw <- SwKrwSamples params ;;
  krw <- krwSamples params ;;
  SwKrn <- SwKrnSamples params ;;
  krn <- krnSamples params ;;
  make_params vk (make_buffer_view SwPcwn) (make_buffer_view pcwn)
    (make_buffer_view SwKrw) (make_buffer_view krw)
    (make_buffer_view SwKrn) (make_buffer_view krn).

End Table.

Arguments finalized_ {T k} _.
Arguments SwPcwnSamples_ {T k} _.
Arguments SwKrwSamples_ {T k} _.
Arguments SwKrnSamples_ {T k} _.
Arguments pcwnSamples_ {T k} _.
Arguments krwSamples_ {T k} _.
Arguments krnSamples_ {T k} _.

(** ** Vocabulary of the statements *)

Section Vocabulary.
Context {T : Traits}.

(** Descending orientation: the first element is greater than the last. *)
Definition descending (x : ValueVector) : bool :=
  match head x, last x with
  | Some f, Some b => scalar_gt f b
  | _, _ => false
  end.

(** The gating comparison: the first saturation is greater than the last
    value. *)
Definition gate (x y : ValueVector) : bool :=
  match head x, last y with
  | Some f, Some b => scalar_gt f b
  | _, _ => false
  end.

Definition reorders (x y : ValueVector) : bool := descending x && gate x y.



(** A pair of one curve: equally long and not empty. *)
Definition pair_wf (x y : ValueVector) : Prop := length x = length y /\ x <> [].

Definition equal_lengths {k} (p : PiecewiseLinearTwoPhaseMaterialParams k) : Prop :=
  length (SwPcwnSamples_ p) = length (pcwnSamples_ p) /\
  length (SwKrwSamples_ p) = length (krwSamples_ p) /\
  length (SwKrnSamples_ p) = length (krnSamples_ p).

Definition table_wf {k} (p : PiecewiseLinearTwoPhaseMaterialParams k) : Prop :=
  pair_wf (SwPcwnSamples_ p) (pcwnSamples_ p) /\
  pair_wf (SwKrwSamples_ p) (krwSamples_ p) /\
  pair_wf (SwKrnSamples_ p) (krnSamples_ p).

(** What one statement of lines 89-96 amounts to on a well-formed pair. *)
Definition pair_effect (k : container_kind) (x y : ValueVector)
  : M (ValueVector * ValueVector) :=
  (OrientationTest (descending x) ::
     (if descending x
      then GateTest (gate x y) :: (if gate x y && is_mutable k then [Reversal] else [])
      else []),
   if reorders x y
   then if is_mutable k then Ok (reverse x, reverse y)
        else Err (LogicError immutable_message)
   else Ok (x, y)).

(** The sequences of a table, in the order of the constructor arguments. *)
Definition sequences {k} (p : PiecewiseLinearTwoPhaseMaterialParams k) : list ValueVector :=
  [SwPcwnSamples_ p; pcwnSamples_ p; SwKrwSamples_ p; krwSamples_ p;
   SwKrnSamples_ p; krnSamples_ p].

(** The six read accessors, in the same order. *)
Definition accessors {k} : list (PiecewiseLinearTwoPhaseMaterialParams k -> M ValueVector) :=
  [SwPcwnSamples; pcwnSamples; SwKrwSamples; krwSamples; SwKrnSamples; krnSamples].

(** What the statement of lines 89-96 needs of a pair it will not reorder:
    a saturation sequence with a first and a last element, and a last value
    where the orientation is descending. *)
Definition readable (x y : ValueVector) : Prop :=
  x <> [] /\ (descending x = true -> y <> []).

Definition table_readable {k} (p : PiecewiseLinearTwoPhaseMaterialParams k) : Prop :=
  readable (SwPcwnSamples_ p) (pcwnSamples_ p) /\
  readable (SwKrwSamples_ p) (krwSamples_ p) /\
  readable (SwKrnSamples_ p) (krnSamples_ p).

Definition any_reorders {k} (p : PiecewiseLinearTwoPhaseMaterialParams k) : bool :=
  reorders (SwPcwnSamples_ p) (pcwnSamples_ p) ||
  reorders (SwKrwSamples_ p) (krwSamples_ p) ||
  reorders (SwKrnSamples_ p) (krnSamples_ p).

(** The table with the guard in state [Finalized] and the same sequences. *)
Definition mark_finalized {k} (p : PiecewiseLinearTwoPhaseMaterialParams k)
  : PiecewiseLinearTwoPhaseMaterialParams k :=
  {| finalized_ := Finalized;
     SwPcwnSamples_ := SwPcwnSamples_ p; SwKrwSamples_ := SwKrwSamples_ p;
     SwKrnSamples_ := SwKrnSamples_ p; pcwnSamples_ := pcwnSamples_ p;
     krwSamples_ := krwSamples_ p; krnSamples_ := krnSamples_ p |}.

(** A pair after the decision: both sequences reversed when both comparisons
    hold, both as they were otherwise. *)
Definition settle (x y : ValueVector) : ValueVector * ValueVector :=
  if reorders x y then (reverse x, reverse y) else (x, y).

Definition reordered {k} (p : PiecewiseLinearTwoPhaseMaterialParams k)
  : PiecewiseLinearTwoPhaseMaterialParams k :=
  {| finalized_ := finalized_ p;
     SwPcwnSamples_ := fst (settle (SwPcwnSamples_ p) (pcwnSamples_ p));
     SwKrwSamples_ := fst (settle (SwKrwSamples_ p) (krwSamples_ p));
     SwKrnSamples_ := fst (settle (SwKrnSamples_ p) (krnSamples_ p));
     pcwnSamples_ := snd (settle (SwPcwnSamples_ p) (pcwnSamples_ p));
     krwSamples_ := snd (settle (SwKrwSamples_ p) (krwSamples_ p));
     krnSamples_ := snd (settle (SwKrnSamples_ p) (krnSamples_ p)) |}.

Definition all_nonempty {k} (p : PiecewiseLinearTwoPhaseMaterialParams k) : Prop :=
  SwPcwnSamples_ p <> [] /\ SwKrwSamples_ p <> [] /\ SwKrnSamples_ p <> [].

(** The comparisons one statement of lines 89-96 evaluates on a pair. *)
Definition order_tests (x y : ValueVector) : list event :=
  OrientationTest (descending x) ::
  (if descending x then [GateTest (gate x y)] else []).

(** The three curves of a table as (saturations, values) pairs, and the
    sample points of one curve. *)
Definition curves {k} (p : PiecewiseLinearTwoPhaseMaterialParams k)
  : list (ValueVector * ValueVector) :=
  [(SwPcwnSamples_ p, pcwnSamples_ p); (SwKrwSamples_ p, krwSamples_ p);
   (SwKrnSamples_ p, krnSamples_ p)].


(** Default construction, the three setters, then [finalize]. *)
Definition populate_and_finalize (k : container_kind)
    (SwPcwn pcwn SwKrw krw SwKrn krn : ValueVector)
  : M (PiecewiseLinearTwoPhaseMaterialParams k) :=
  t1 <- setPcnwSamples (default_params k) SwPcwn pcwn ;;
  t2 <- setKrwSamples t1 SwKrw krw ;;
  t3 <- setKrnSamples t2 SwKrn krn ;;
  finalize t3.

(** The object the constructor call of [make_view] starts from: the six
    views, the guard not yet finalized. *)
Definition view_before_finalize {k} (vk : container_kind)
    (p : PiecewiseLinearTwoPhaseMaterialParams k)
  : PiecewiseLinearTwoPhaseMaterialParams vk :=
  initialized vk (SwPcwnSamples_ p) (pcwnSamples_ p) (SwKrwSamples_ p) (krwSamples_ p)
    (SwKrnSamples_ p) (krnSamples_ p).

End Vocabulary.

(** Counting events of a trace. *)
Definition is_reversal (ev : event) : bool :=
  match ev with Reversal => true | _ => false end.

Definition is_orientation_test (ev : event) : bool :=
  match ev with OrientationTest _ => true | _ => false end.

Definition is_guard_finalize (ev : event) : bool :=
  match ev with GuardFinalize => true | _ => false end.

Definition count_events (f : event -> bool) (tr : list event) : nat :=
  length (List.filter f tr).

Section MirrorDef.
Context {A : Type}.
Implicit Types orig cur : list A.

(** [cur] is [orig] with its first [k] and its last [k] elements exchanged
    in mirrored position: the state of the loop after [k] iterations. *)
Definition mirrored (k : nat) orig cur : Prop :=
  length cur = length orig /\
  forall i, i < length orig ->
    cur !! i =
    orig !! (if decide (i < k \/ length orig - k <= i) then length orig - 1 - i else i).

End MirrorDef.

(** ** Sample tables over doubles *)

Module Samples.

(** The capillary-pressure samples of the spec's example: saturations
    [1.0, 0.5, 0.0] with values [0.0, 1.0, 2.0]; and the ascending
    relative-permeability samples [0.0, 0.5, 1.0] with [0.0, 0.3, 1.0]
    (0.3 as the nearest double). *)
Definition Sw_descending : list float := [1; 0.5; 0]%float.
Definition pc_rising : list float := [0; 1; 2]%float.
Definition pc_falling : list float := [2; 1; 0]%float.
Definition Sw_ascending : list float := [0; 0.5; 1]%float.
Definition kr_rising : list float := [0; 0x1.3333333333333p-2; 1]%float.



(** One curve of each sort: descending but not gated, ascending, descending
    and gated. *)
Definition mixed : PiecewiseLinearTwoPhaseMaterialParams owning :=
  initialized owning Sw_descending pc_rising Sw_ascending kr_rising
    Sw_descending pc_falling.

(** [mixed] as [finalize] leaves it. *)
Definition mixed_finalized : PiecewiseLinearTwoPhaseMaterialParams owning :=
  {| finalized_ := Finalized;
     SwPcwnSamples_ := Sw_descending; SwKrwSamples_ := Sw_ascending;
     SwKrnSamples_ := Sw_ascending; pcwnSamples_ := pc_rising;
     krwSamples_ := kr_rising; krnSamples_ := pc_rising |}.

(** The same three curves over a container of constant elements. *)
Definition mixed_view : PiecewiseLinearTwoPhaseMaterialParams const_view :=
  initialized const_view Sw_descending pc_rising Sw_ascending kr_rising
    Sw_descending pc_falling.

(** Constant elements, no curve passing both comparisons. *)
Definition settled_view : PiecewiseLinearTwoPhaseMaterialParams const_view :=
  initialized const_view Sw_descending pc_rising Sw_ascending kr_rising
    Sw_ascending pc_rising.

(** Constant elements: a first curve that passes both comparisons, then two
    empty curves. *)
Definition throwing_then_empty : PiecewiseLinearTwoPhaseMaterialParams const_view :=
  initialized const_view Sw_descending pc_falling [] [] [] [].

(** A two-point descending saturation sequence, and value sequences of four
    values and of one value. *)
Definition Sw_two : list float := [1; 0]%float.
Definition four_values : list float := [5; 4; 3; 0.5]%float.
Definition one_value : list float := [0.5]%float.

(** Ascending saturations whose value sequences are too long, too short and
    empty. *)
Definition ascending_unpaired : PiecewiseLinearTwoPhaseMaterialParams owning :=
  initialized owning Sw_ascending four_values Sw_ascending one_value Sw_ascending [].

End Samples.

(** ** The monad *)

Section MonadLaws.
Context {A B : Type}.

Lemma bind_ret_l (a : A) (f : A -> M B) : bind (ret a) f = f a.
Proof. unfold bind, ret. simpl. by destruct (f a). Qed.

Lemma outcome_bind (m : M A) (f : A -> M B) :
  outcome (bind m f) = match outcome m with Ok a => outcome (f a) | Err e => Err e end.
Proof. by destruct m as [tr [a|e]]. Qed.

Lemma outcome_emit (ev : event) (f : unit -> M B) :
  outcome (bind (emit ev) f) = outcome (f tt).
Proof. reflexivity. Qed.

Lemma outcome_bind_Ok (m : M A) (f : A -> M B) (b : B) :
  outcome (bind m f) = Ok b -> exists a, outcome m = Ok a /\ outcome (f a) = Ok b.
Proof. rewrite outcome_bind. destruct (outcome m) as [a|e]; [eauto|done]. Qed.

End MonadLaws.

(** ** Reversal in place *)

Section Mirror.
Context {A : Type}.
Implicit Types orig cur : list A.

Lemma mirrored_start orig : mirrored 0 orig orig.
Proof.
  split; [done|]. intros i Hi. case_decide; [|done]. lia.
Qed.

Lemma mirrored_step k orig cur a b :
  mirrored k orig cur ->
  2 * k + 1 < length orig ->
  cur !! k = Some a ->
  cur !! (length orig - k - 1) = Some b ->
  mirrored (S k) orig (<[length orig - k - 1 := a]> (<[k := b]> cur)).
Proof.
  intros [Hlen Hcur] Hk Ha Hb. split.
  { by rewrite !length_insert. }
  intros i Hi.
  destruct (decide (i = length orig - k - 1)) as [->|Hne1].
  - rewrite list_lookup_insert_eq by (rewrite length_insert; lia).
    rewrite <- Ha, (Hcur k) by lia.
    repeat case_decide; try lia. f_equal. lia.
  - rewrite list_lookup_insert_ne by done.
    destruct (decide (i = k)) as [->|Hne2].
    + rewrite list_lookup_insert_eq by lia.
      rewrite <- Hb, (Hcur (length orig - k - 1)) by lia.
      repeat case_decide; try lia. f_equal. lia.
    + rewrite list_lookup_insert_ne by done.
      rewrite (Hcur i) by lia.
      repeat case_decide; try lia; done.
Qed.

Lemma mirrored_half orig cur :
  mirrored (length orig / 2) orig cur -> cur = reverse orig.
Proof.
  intros [Hlen Hcur].
  pose proof (Nat.div_mod_eq (length orig) 2) as Hdiv.
  pose proof (Nat.mod_upper_bound (length orig) 2) as Hmod.
  apply list_eq. intros i.
  destruct (decide (i < length orig)) as [Hi|Hi].
  - rewrite reverse_lookup by done. rewrite (Hcur i) by done.
    case_decide; f_equal; lia.
  - rewrite !lookup_ge_None_2; [done| |]; rewrite ?length_reverse; lia.
Qed.

End Mirror.

(** ** The swap loop and the statement around it *)

Section Reorder.
Context {T : Traits}.
Implicit Types x y sw vals : ValueVector.

Lemma at_index_Some (v : ValueVector) i a : v !! i = Some a -> at_index v i = ret a.
Proof. unfold at_index. by intros ->. Qed.

Lemma std_swap_in_range (v : ValueVector) i j a b :
  v !! i = Some a -> v !! j = Some b ->
  std_swap v i j = ret (<[j := a]> (<[i := b]> v)).
Proof.
  intros Ha Hb. unfold std_swap.
  by rewrite (at_index_Some _ _ _ Ha), bind_ret_l, (at_index_Some _ _ _ Hb), bind_ret_l.
Qed.

Lemma swap_loop_mirrored osw ovals remaining k sw vals :
  length osw = length ovals ->
  k + remaining = length osw / 2 ->
  mirrored k osw sw -> mirrored k ovals vals ->
  exists sw' vals',
    swap_loop remaining k sw vals = ret (sw', vals') /\
    mirrored (length osw / 2) osw sw' /\ mirrored (length osw / 2) ovals vals'.
Proof.
  intros Hlen.
  pose proof (Nat.div_mod_eq (length osw) 2) as Hdiv.
  pose proof (Nat.mod_upper_bound (length osw) 2) as Hmod.
  revert k sw vals.
  induction remaining as [|r IH]; intros k sw vals Hk Hsw Hvals.
  - exists sw, vals. replace (length osw / 2) with k by lia. done.
  - simpl.
    destruct (Hsw) as [Hlsw _]. destruct (Hvals) as [Hlvals _].
    rewrite Hlsw.
    destruct (lookup_lt_is_Some_2 sw k) as [a Ha]; [lia|].
    destruct (lookup_lt_is_Some_2 sw (length osw - k - 1)) as [b Hb]; [lia|].
    destruct (lookup_lt_is_Some_2 vals k) as [c Hc]; [lia|].
    destruct (lookup_lt_is_Some_2 vals (length osw - k - 1)) as [d Hd]; [lia|].
    rewrite (std_swap_in_range _ _ _ _ _ Ha Hb), bind_ret_l.
    rewrite (std_swap_in_range _ _ _ _ _ Hc Hd), bind_ret_l.
    apply IH; [lia| |].
    + apply mirrored_step; [done|lia|done|done].
    + rewrite Hlen in Hd. replace (length osw - k - 1) with (length ovals - k - 1) by lia.
      apply mirrored_step; [done|lia|done|done].
Qed.

(** With equally long sequences the loop reverses both. *)
Lemma swap_loop_reverse x y :
  length x = length y ->
  swap_loop (length x / 2) 0 x y = ret (reverse x, reverse y).
Proof.
  intros Hlen.
  destruct (swap_loop_mirrored x y (length x / 2) 0 x y Hlen)
    as (x' & y' & -> & Hx & Hy); [lia|apply mirrored_start|apply mirrored_start|].
  rewrite Hlen in Hy at 1.
  by rewrite (mirrored_half _ _ Hx), (mirrored_half _ _ Hy).
Qed.

Lemma std_swap_Ok (v v' : ValueVector) i j :
  outcome (std_swap v i j) = Ok v' ->
  exists a b, v !! i = Some a /\ v !! j = Some b /\ v' = <[j := a]> (<[i := b]> v).
Proof.
  unfold std_swap, at_index.
  destruct (v !! i) as [a|]; [|done]. destruct (v !! j) as [b|]; [|done].
  simpl. intros [= <-]. eauto.
Qed.

(** Whatever the values are, a loop that completes has reversed the
    saturations. *)
Lemma swap_loop_Ok_mirrored osw remaining k sw vals sw' vals' :
  k + remaining = length osw / 2 ->
  mirrored k osw sw ->
  outcome (swap_loop remaining k sw vals) = Ok (sw', vals') ->
  mirrored (length osw / 2) osw sw'.
Proof.
  pose proof (Nat.div_mod_eq (length osw) 2) as Hdiv.
  pose proof (Nat.mod_upper_bound (length osw) 2) as Hmod.
  revert k sw vals.
  induction remaining as [|r IH]; intros k sw vals Hk Hsw H.
  - injection H as <- <-. by replace (length osw / 2) with k by lia.
  - simpl in H. destruct (Hsw) as [Hlsw _]. rewrite Hlsw in H.
    apply outcome_bind_Ok in H as (sw1 & Hswap & H).
    apply outcome_bind_Ok in H as (vals1 & _ & H).
    apply std_swap_Ok in Hswap as (a & b & Ha & Hb & ->).
    refine (IH (S k) _ vals1 _ _ H); [lia|].
    apply mirrored_step; [done|lia|done|done].
Qed.

Lemma swap_loop_Ok_reverse x y x' y' :
  outcome (swap_loop (length x / 2) 0 x y) = Ok (x', y') -> x' = reverse x.
Proof.
  intros H. apply mirrored_half.
  apply (swap_loop_Ok_mirrored x (length x / 2) 0 x y x' y'); [lia|apply mirrored_start|done].
Qed.

Lemma front_head x a : head x = Some a -> front x = ret a.
Proof. unfold front. by intros ->. Qed.

Lemma back_last x a : last x = Some a -> back x = ret a.
Proof. unfold back. by intros ->. Qed.

Lemma pair_wf_ends x y :
  pair_wf x y ->
  exists fx bx b_y, head x = Some fx /\ last x = Some bx /\ last y = Some b_y.
Proof.
  intros [Hlen Hne].
  assert (y <> []) as Hney.
  { intros ->. destruct x; [done|discriminate]. }
  apply head_is_Some in Hne as Hh. apply last_is_Some in Hne as Hl.
  apply last_is_Some in Hney as Hly.
  destruct Hh as [fx ?], Hl as [bx ?], Hly as [b_y ?]. eauto 6.
Qed.

(** On a well-formed pair one statement of lines 89-96 is [pair_effect]. *)
Lemma revert_if_descending_effect k x y :
  pair_wf x y -> revert_if_descending k x y = pair_effect k x y.
Proof.
  intros Hwf. destruct (pair_wf_ends x y Hwf) as (fx & bx & b_y & Hfx & Hbx & Hby).
  destruct Hwf as [Hlen _].
  unfold revert_if_descending, pair_effect, reorders, descending, gate.
  rewrite Hfx, Hbx, Hby.
  rewrite (front_head _ _ Hfx), bind_ret_l, (back_last _ _ Hbx), bind_ret_l.
  destruct (scalar_gt fx bx); [|reflexivity].
  unfold swapOrderIfPossibleThrowOtherwise_.
  rewrite (front_head _ _ Hfx), bind_ret_l, (back_last _ _ Hby), bind_ret_l.
  destruct (scalar_gt fx b_y); [|reflexivity].
  destruct (is_mutable k); [|reflexivity].
  by rewrite (swap_loop_reverse _ _ Hlen).
Qed.

Lemma pair_wf_readable x y : pair_wf x y -> readable x y.
Proof.
  intros [Hlen Hne]. split; [done|]. intros _ ->. destruct x; [done|discriminate].
Qed.

(** A readable pair that does not pass both comparisons is tested and left
    alone, whatever the container. *)
Lemma revert_if_descending_settled k x y :
  readable x y -> reorders x y = false ->
  revert_if_descending k x y = (order_tests x y, Ok (x, y)).
Proof.
  intros [Hne Hy]. unfold reorders, order_tests, gate.
  apply head_is_Some in Hne as Hh. apply last_is_Some in Hne as Hl.
  destruct Hh as [fx Hfx], Hl as [bx Hbx].
  unfold revert_if_descending, descending in *. rewrite Hfx, Hbx in *.
  rewrite (front_head _ _ Hfx), bind_ret_l, (back_last _ _ Hbx), bind_ret_l.
  destruct (scalar_gt fx bx); [|reflexivity].
  apply last_is_Some in Hy as [b_y Hby]; [|done]. rewrite Hby. simpl. intros Hgate.
  unfold swapOrderIfPossibleThrowOtherwise_.
  rewrite (front_head _ _ Hfx), bind_ret_l, (back_last _ _ Hby), bind_ret_l.
  by rewrite Hgate.
Qed.

End Reorder.

(** ** Doubles *)

Lemma SFltb_asym (f1 f2 : spec_float) : SFltb f1 f2 = true -> SFltb f2 f1 = false.
Proof.
  unfold SFltb.
  destruct f1 as [s1|s1| |s1 m1 e1], f2 as [s2|s2| |s2 m2 e2]; simpl;
    try destruct s1; try destruct s2; simpl; try congruence;
    pose proof (Pos.compare_cont_antisym m1 m2 Eq) as Hm; simpl in Hm;
    rewrite (Z.compare_antisym e1 e2), <- Hm;
    destruct (e1 ?= e2)%Z; simpl; try congruence;
    destruct (Pos.compare_cont Eq m1 m2); simpl; congruence.
Qed.

#[export] Instance double_asymmetric : AsymmetricGt double_traits.
Proof.
  intros a b. simpl. unfold double_gt. rewrite !ltb_spec. apply SFltb_asym.
Qed.

(** ** finalize on a whole table *)

(** Case analysis on the six comparisons of a table. *)
Ltac case_tests t :=
  unfold pair_effect, any_reorders, reordered, settle, order_tests; unfold reorders;
  destruct (descending (SwPcwnSamples_ t)), (gate (SwPcwnSamples_ t) (pcwnSamples_ t)),
    (descending (SwKrwSamples_ t)), (gate (SwKrwSamples_ t) (krwSamples_ t)),
    (descending (SwKrnSamples_ t)), (gate (SwKrnSamples_ t) (krnSamples_ t)).

Section Finalize.
Context {T : Traits}.
Implicit Types x y : ValueVector.

Lemma count_events_app f (tr1 tr2 : list event) :
  count_events f (tr1 ++ tr2) = count_events f tr1 + count_events f tr2.
Proof. unfold count_events. by rewrite List.filter_app, length_app. Qed.

Lemma finalize_unfinalized {k} (t : PiecewiseLinearTwoPhaseMaterialParams k) :
  finalized_ t = Unfinalized ->
  finalize t = (GuardFinalize :: trace (normalize_order (mark_finalized t)),
                outcome (normalize_order (mark_finalized t))).
Proof. unfold finalize. by intros ->. Qed.

Lemma finalize_finalized {k} (t : PiecewiseLinearTwoPhaseMaterialParams k) :
  finalized_ t = Finalized -> finalize t = ([GuardFinalize], Err AlreadyFinalized).
Proof. unfold finalize. by intros ->. Qed.

Lemma normalize_order_wf {k} (t : PiecewiseLinearTwoPhaseMaterialParams k) :
  table_wf t ->
  normalize_order t =
  (Pcwn <- pair_effect k (SwPcwnSamples_ t) (pcwnSamples_ t) ;;
   Krw <- pair_effect k (SwKrwSamples_ t) (krwSamples_ t) ;;
   Krn <- pair_effect k (SwKrnSamples_ t) (krnSamples_ t) ;;
   ret {| finalized_ := finalized_ t;
          SwPcwnSamples_ := fst Pcwn; SwKrwSamples_ := fst Krw; SwKrnSamples_ := fst Krn;
          pcwnSamples_ := snd Pcwn; krwSamples_ := snd Krw; krnSamples_ := snd Krn |}).
Proof.
  intros (H1 & H2 & H3). unfold normalize_order.
  by rewrite !revert_if_descending_effect.
Qed.



Lemma normalize_order_immutable {k} (t : PiecewiseLinearTwoPhaseMaterialParams k) :
  is_mutable k = false -> table_wf t ->
  outcome (normalize_order t) =
  if any_reorders t then Err (LogicError immutable_message) else Ok t.
Proof.
  intros Hmut Hwf. rewrite (normalize_order_wf t Hwf).
  case_tests t; rewrite Hmut; destruct t; reflexivity.
Qed.

(** A table on which no pair passes both comparisons goes through the three
    statements untouched, whatever its container. *)
Lemma table_wf_readable {k} (t : PiecewiseLinearTwoPhaseMaterialParams k) :
  table_wf t -> table_readable t.
Proof. intros (H1 & H2 & H3). split; [|split]; by apply pair_wf_readable. Qed.

Lemma normalize_order_settled {k} (t : PiecewiseLinearTwoPhaseMaterialParams k) :
  table_readable t -> any_reorders t = false ->
  normalize_order t =
  (order_tests (SwPcwnSamples_ t) (pcwnSamples_ t) ++
   order_tests (SwKrwSamples_ t) (krwSamples_ t) ++
   order_tests (SwKrnSamples_ t) (krnSamples_ t), Ok t).
Proof.
  intros (H1 & H2 & H3) Hno. unfold any_reorders in Hno.
  apply orb_false_iff in Hno as [Hno R3]. apply orb_false_iff in Hno as [R1 R2].
  unfold normalize_order.
  rewrite (revert_if_descending_settled k _ _ H1 R1).
  rewrite (revert_if_descending_settled k _ _ H2 R2).
  rewrite (revert_if_descending_settled k _ _ H3 R3).
  destruct t. unfold bind, ret. cbn [fst snd]. by rewrite app_nil_r.
Qed.

End Finalize.

(** ** Setters *)

Section Setters.
Context {T : Traits}.

Lemma std_copy_resized (src old : ValueVector) :
  std_copy src (resize (length src) scalar_zero old) = ret src.
Proof.
  unfold std_copy. rewrite length_resize.
  case_decide; [|lia].
  by rewrite drop_ge, app_nil_r by (rewrite length_resize; lia).
Qed.

Lemma set_samples_equal_length (SwValues values old_sw old_values : ValueVector) :
  length SwValues = length values ->
  set_samples SwValues values old_sw old_values = ret (SwValues, values).
Proof.
  intros Hlen. unfold set_samples.
  case_decide; [|done]. rewrite bind_ret_l, std_copy_resized, bind_ret_l.
  rewrite Hlen. by rewrite std_copy_resized, bind_ret_l.
Qed.

End Setters.

(** ** Orientation after a reversal *)

Section Orientation.
Context {T : Traits}.
Implicit Types x y : ValueVector.

Lemma descending_reverse `{!AsymmetricGt T} x :
  descending x = true -> descending (reverse x) = false.
Proof.
  unfold descending. rewrite head_reverse, last_reverse.
  destruct (head x) as [f|], (last x) as [b|]; try done.
  apply scalar_gt_asym.
Qed.


Lemma settle_oriented `{!AsymmetricGt T} x y :
  reorders (fst (settle x y)) (snd (settle x y)) = false.
Proof.
  unfold settle. destruct (reorders x y) eqn:Hr; simpl; [|done].
  unfold reorders in *. apply andb_true_iff in Hr as [Hd _].
  by rewrite (descending_reverse x Hd).
Qed.

Lemma settle_wf x y : pair_wf x y -> pair_wf (fst (settle x y)) (snd (settle x y)).
Proof.
  intros [Hlen Hne]. unfold settle. destruct (reorders x y); simpl; [|done].
  split; [by rewrite !length_reverse|].
  intros Hnil. apply Hne. apply (f_equal length) in Hnil.
  rewrite length_reverse in Hnil. by apply nil_length_inv.
Qed.

End Orientation.

(** ** The claims about finalize *)

Section FinalizeClaims.
Context {T : Traits}.
Implicit Types x y : ValueVector.


Lemma any_reorders_Exists {k} (t : PiecewiseLinearTwoPhaseMaterialParams k) :
  any_reorders t = true <->
  Exists (fun c => descending (fst c) = true /\ gate (fst c) (snd c) = true) (curves t).
Proof.
  unfold any_reorders, reorders, curves. rewrite !Exists_cons, Exists_nil. simpl.
  rewrite !orb_true_iff, !andb_true_iff. tauto.
Qed.



(** C3: on a not yet finalized table over an immutable container (constant
    elements or a constant container) with well-formed curves (equally long,
    non-empty), finalize raises the logic
    error as soon as some curve satisfies both [x.front() > x.back()] and
    [x.front() > y.back()], and otherwise succeeds with every sequence as it
    was. *)
Theorem finalize_immutable_throws_or_keeps {k}
    (t : PiecewiseLinearTwoPhaseMaterialParams k) :
  is_mutable k = false ->
  finalized_ t = Unfinalized ->
  table_wf t ->
  (Exists (fun c => descending (fst c) = true /\ gate (fst c) (snd c) = true) (curves t) ->
   outcome (finalize t) = Err (LogicError immutable_message)) /\
  (~ Exists (fun c => descending (fst c) = true /\ gate (fst c) (snd c) = true) (curves t) ->
   outcome (finalize t) = Ok (mark_finalized t) /\
   count_events is_reversal (trace (finalize t)) = 0).
Proof.
  intros Hmut Hun Hwf.
  rewrite (finalize_unfinalized t Hun). simpl.
  rewrite <- (any_reorders_Exists t).
  split; intros Hex.
  - rewrite normalize_order_immutable by done.
    change (any_reorders (mark_finalized t)) with (any_reorders t). by rewrite Hex.
  - apply not_true_is_false in Hex.
    rewrite (normalize_order_settled (mark_finalized t) (table_wf_readable _ Hwf) Hex).
    simpl. split; [done|].
    unfold order_tests.
    destruct (descending (SwPcwnSamples_ t)), (descending (SwKrwSamples_ t)),
      (descending (SwKrnSamples_ t)); reflexivity.
Qed.

End FinalizeClaims.

(** ** Successful runs, read backwards *)

Section Inversion.
Context {T : Traits}.
Implicit Types x y : ValueVector.

Lemma normalize_order_Ok {k} (p p' : PiecewiseLinearTwoPhaseMaterialParams k) :
  outcome (normalize_order p) = Ok p' ->
  outcome (revert_if_descending k (SwPcwnSamples_ p) (pcwnSamples_ p))
    = Ok (SwPcwnSamples_ p', pcwnSamples_ p') /\
  outcome (revert_if_descending k (SwKrwSamples_ p) (krwSamples_ p))
    = Ok (SwKrwSamples_ p', krwSamples_ p') /\
  outcome (revert_if_descending k (SwKrnSamples_ p) (krnSamples_ p))
    = Ok (SwKrnSamples_ p', krnSamples_ p') /\
  finalized_ p' = finalized_ p.
Proof.
  unfold normalize_order. intros H.
  apply outcome_bind_Ok in H as ([x1 y1] & H1 & H).
  apply outcome_bind_Ok in H as ([x2 y2] & H2 & H).
  apply outcome_bind_Ok in H as ([x3 y3] & H3 & H).
  injection H as <-. done.
Qed.

Lemma finalize_Ok {k} (t t' : PiecewiseLinearTwoPhaseMaterialParams k) :
  outcome (finalize t) = Ok t' ->
  finalized_ t = Unfinalized /\ finalized_ t' = Finalized /\
  outcome (normalize_order (mark_finalized t)) = Ok t'.
Proof.
  destruct (finalized_ t) eqn:Hg.
  - rewrite (finalize_unfinalized t Hg). simpl. intros H.
    apply normalize_order_Ok in H as H'. by destruct H' as (_ & _ & _ & ->).
  - by rewrite (finalize_finalized t Hg).
Qed.

Lemma revert_if_descending_empty k y :
  revert_if_descending k [] y = raise OutOfBounds.
Proof. reflexivity. Qed.

Lemma revert_if_descending_Ok k x y x' y' :
  length x = length y ->
  outcome (revert_if_descending k x y) = Ok (x', y') ->
  pair_wf x y /\ (x', y') = settle x y /\ (is_mutable k = false -> reorders x y = false).
Proof.
  intros Hlen H.
  assert (pair_wf x y) as Hwf.
  { split; [done|]. intros ->. by rewrite revert_if_descending_empty in H. }
  split; [done|].
  rewrite (revert_if_descending_effect k x y Hwf) in H.
  unfold pair_effect, outcome, settle in *. simpl in H.
  destruct (reorders x y), (is_mutable k); try done; by injection H as <- <-.
Qed.

End Inversion.

(** ** Accessors, construction and the length invariant *)

Section Lifecycle.
Context {T : Traits}.
Implicit Types x y : ValueVector.

(** C4: each of the six read accessors, on a table over any container, fails
    with the guard's error while the table is unfinalized (as a
    default-constructed table is), returning no data; on the table that
    finalize has returned it returns the stored sequence. *)
Theorem accessors_guarded_by_finalize {k} (t : PiecewiseLinearTwoPhaseMaterialParams k) :
  finalized_ (default_params k) = Unfinalized /\
  (finalized_ t = Unfinalized ->
   Forall (fun accessor => outcome (accessor t) = Err NotFinalized) accessors) /\
  (forall t', outcome (finalize t) = Ok t' ->
   Forall2 (fun accessor stored => outcome (accessor t') = Ok stored)
           accessors (sequences t')).
Proof.
  split; [done|]. split.
  - intros Hun. unfold accessors.
    repeat apply List.Forall_cons; try apply List.Forall_nil;
      unfold SwPcwnSamples, pcwnSamples, SwKrwSamples, krwSamples, SwKrnSamples, krnSamples;
      by rewrite Hun.
  - intros t' Hfin. apply finalize_Ok in Hfin as (_ & Hfin & _).
    unfold accessors, sequences.
    repeat apply List.Forall2_cons; try apply List.Forall2_nil;
      unfold SwPcwnSamples, pcwnSamples, SwKrwSamples, krwSamples, SwKrnSamples, krnSamples;
      by rewrite Hfin.
Qed.

Lemma make_params_settled k (SwPcwn pcwn SwKrw krw SwKrn krn : ValueVector) :
  let t := initialized k SwPcwn pcwn SwKrw krw SwKrn krn in
  table_readable t -> any_reorders t = false ->
  make_params k SwPcwn pcwn SwKrw krw SwKrn krn =
  (GuardFinalize :: order_tests SwPcwn pcwn ++ order_tests SwKrw krw ++ order_tests SwKrn krn,
   Ok (mark_finalized t)).
Proof.
  intros t Hwf Hno. unfold make_params. fold t.
  rewrite (finalize_unfinalized t) by done.
  by rewrite (normalize_order_settled (mark_finalized t) Hwf Hno).
Qed.

Lemma populate_is_initialized k (SwPcwn pcwn SwKrw krw SwKrn krn : ValueVector) :
  length SwPcwn = length pcwn -> length SwKrw = length krw -> length SwKrn = length krn ->
  populate_and_finalize k SwPcwn pcwn SwKrw krw SwKrn krn =
  make_params k SwPcwn pcwn SwKrw krw SwKrn krn.
Proof.
  intros H1 H2 H3. unfold populate_and_finalize, setPcnwSamples, setKrwSamples, setKrnSamples.
  rewrite (set_samples_equal_length _ _ _ _ H1), !bind_ret_l.
  rewrite (set_samples_equal_length _ _ _ _ H2), !bind_ret_l.
  by rewrite (set_samples_equal_length _ _ _ _ H3), !bind_ret_l.
Qed.

(** C5: six sequences forming three well-formed curves whose saturations are
    ascending (the first not greater than the last) come out of construction
    and finalization unchanged, whether the table is built by the
    six-sequence constructor, which finalizes, or by default construction,
    the three setters and finalize. *)
Theorem ascending_samples_unchanged (k : container_kind)
    (SwPcwn pcwn SwKrw krw SwKrn krn : ValueVector) :
  pair_wf SwPcwn pcwn -> pair_wf SwKrw krw -> pair_wf SwKrn krn ->
  descending SwPcwn = false -> descending SwKrw = false -> descending SwKrn = false ->
  exists t,
    outcome (make_params k SwPcwn pcwn SwKrw krw SwKrn krn) = Ok t /\
    (is_mutable k = true ->
     outcome (populate_and_finalize k SwPcwn pcwn SwKrw krw SwKrn krn) = Ok t) /\
    sequences t = [SwPcwn; pcwn; SwKrw; krw; SwKrn; krn].
Proof.
  intros H1 H2 H3 Ha1 Ha2 Ha3.
  exists (mark_finalized (initialized k SwPcwn pcwn SwKrw krw SwKrn krn)).
  assert (make_params k SwPcwn pcwn SwKrw krw SwKrn krn =
          (GuardFinalize :: order_tests SwPcwn pcwn ++ order_tests SwKrw krw ++
             order_tests SwKrn krn,
           Ok (mark_finalized (initialized k SwPcwn pcwn SwKrw krw SwKrn krn)))) as Hmake.
  { apply make_params_settled; [by apply table_wf_readable|].
    unfold any_reorders, reorders. simpl. by rewrite Ha1, Ha2, Ha3. }
  split; [by rewrite Hmake|]. split; [|done].
  intros _. rewrite populate_is_initialized; [by rewrite Hmake|apply H1|apply H2|apply H3].
Qed.

Lemma revert_if_descending_lengths k x y x' y' :
  length x = length y ->
  outcome (revert_if_descending k x y) = Ok (x', y') -> length x' = length y'.
Proof.
  intros Hlen H. apply revert_if_descending_Ok in H as (Hwf & Heq & _); [|done].
  apply settle_wf in Hwf as [Hl _]. by rewrite <- Heq in Hl.
Qed.

Lemma normalize_order_lengths {k} (p p' : PiecewiseLinearTwoPhaseMaterialParams k) :
  equal_lengths p -> outcome (normalize_order p) = Ok p' -> equal_lengths p'.
Proof.
  intros (H1 & H2 & H3) H. apply normalize_order_Ok in H as (O1 & O2 & O3 & _).
  split; [exact (revert_if_descending_lengths _ _ _ _ _ H1 O1)|].
  split; [exact (revert_if_descending_lengths _ _ _ _ _ H2 O2)|].
  exact (revert_if_descending_lengths _ _ _ _ _ H3 O3).
Qed.

Lemma finalize_lengths {k} (p p' : PiecewiseLinearTwoPhaseMaterialParams k) :
  equal_lengths p -> outcome (finalize p) = Ok p' -> equal_lengths p'.
Proof.
  intros Heq H. apply finalize_Ok in H as (_ & _ & H).
  by apply (normalize_order_lengths (mark_finalized p)).
Qed.

Lemma make_view_Ok {k} vk (p : PiecewiseLinearTwoPhaseMaterialParams k)
    (v : PiecewiseLinearTwoPhaseMaterialParams vk) :
  outcome (make_view vk p) = Ok v ->
  finalized_ p = Finalized /\
  outcome (make_params vk (SwPcwnSamples_ p) (pcwnSamples_ p) (SwKrwSamples_ p)
             (krwSamples_ p) (SwKrnSamples_ p) (krnSamples_ p)) = Ok v.
Proof.
  unfold make_view, SwPcwnSamples, pcwnSamples, SwKrwSamples, krwSamples,
    SwKrnSamples, krnSamples, make_buffer_view.
  destruct (finalized_ p); [done|]. simpl. done.
Qed.

(** C8: the pairs keep equal lengths.  The default constructor starts with
    three empty pairs; a setter given equally long inputs succeeds, stores
    exactly them and leaves the other two pairs alone; finalize, the
    six-sequence constructor (given equally long inputs) and make_view hand
    over tables with equally long pairs whenever they succeed. *)
Theorem pairs_keep_equal_lengths {k} (p : PiecewiseLinearTwoPhaseMaterialParams k) :
  equal_lengths (default_params k) /\
  (forall SwValues values : ValueVector,
     length SwValues = length values -> equal_lengths p ->
     (exists p', outcome (setPcnwSamples p SwValues values) = Ok p' /\
                 SwPcwnSamples_ p' = SwValues /\ pcwnSamples_ p' = values /\
                 equal_lengths p') /\
     (exists p', outcome (setKrwSamples p SwValues values) = Ok p' /\
                 SwKrwSamples_ p' = SwValues /\ krwSamples_ p' = values /\
                 equal_lengths p') /\
     (exists p', outcome (setKrnSamples p SwValues values) = Ok p' /\
                 SwKrnSamples_ p' = SwValues /\ krnSamples_ p' = values /\
                 equal_lengths p')) /\
  (forall p', equal_lengths p -> outcome (finalize p) = Ok p' -> equal_lengths p') /\
  (forall (SwPcwn pcwn SwKrw krw SwKrn krn : ValueVector) p',
     length SwPcwn = length pcwn -> length SwKrw = length krw ->
     length SwKrn = length krn ->
     outcome (make_params k SwPcwn pcwn SwKrw krw SwKrn krn) = Ok p' ->
     equal_lengths p') /\
  (forall vk (v : PiecewiseLinearTwoPhaseMaterialParams vk),
     equal_lengths p -> outcome (make_view vk p) = Ok v -> equal_lengths v).
Proof.
  split; [done|]. split; [|split; [|split]].
  - intros SwValues values Hlen (H1 & H2 & H3).
    unfold setPcnwSamples, setKrwSamples, setKrnSamples.
    rewrite !(set_samples_equal_length _ _ _ _ Hlen), !bind_ret_l.
    repeat split; eexists; (split; [reflexivity|]); done.
  - intros p'. apply finalize_lengths.
  - intros SwPcwn pcwn SwKrw krw SwKrn krn p' H1 H2 H3. unfold make_params.
    by apply finalize_lengths.
  - intros vk v Heq H. apply make_view_Ok in H as [_ H].
    unfold make_params in H. revert H. by apply finalize_lengths.
Qed.

End Lifecycle.

(** ** After finalize: idempotence and views *)

Section Settled.
Context {T : Traits} `{!AsymmetricGt T}.
Implicit Types x y : ValueVector.

Lemma count_reversal_order_tests x y :
  reorders x y = false -> count_events is_reversal (order_tests x y) = 0.
Proof. unfold order_tests. by destruct (descending x). Qed.

Lemma revert_if_descending_settles k x y x' y' :
  outcome (revert_if_descending k x y) = Ok (x', y') ->
  readable x' y' /\ reorders x' y' = false.
Proof.
  unfold revert_if_descending, swapOrderIfPossibleThrowOtherwise_, front, back.
  unfold readable, reorders, gate.
  destruct (head x) as [fx|] eqn:Hfx; [|done].
  destruct (last x) as [bx|] eqn:Hbx; [|done].
  assert (x <> []) as Hne by (by intros ->).
  rewrite !bind_ret_l, outcome_emit.
  destruct (scalar_gt fx bx) eqn:Hd.
  - destruct (last y) as [b_y|] eqn:Hby; [|done].
    assert (y <> []) as Hney by (by intros ->).
    rewrite bind_ret_l, outcome_emit.
    destruct (scalar_gt fx b_y) eqn:Hg.
    + destruct (is_mutable k); [|done].
      rewrite outcome_emit. intros H.
      apply swap_loop_Ok_reverse in H as ->.
      assert (descending (reverse x) = false) as Hasc.
      { apply descending_reverse. unfold descending. by rewrite Hfx, Hbx. }
      rewrite Hasc. split; [|done]. split; [|done].
      intros Hnil. apply Hne. apply (f_equal length) in Hnil.
      rewrite length_reverse in Hnil. by apply nil_length_inv.
    + intros [= <- <-]. rewrite Hfx, Hby, Hg. by rewrite andb_false_r.
  - intros [= <- <-]. unfold descending. rewrite Hfx, Hbx, Hd. done.
Qed.

(** What finalize hands over: readable curves, none of which passes both
    comparisons, under a finalized guard. *)
Lemma finalize_settles {k} (t t' : PiecewiseLinearTwoPhaseMaterialParams k) :
  outcome (finalize t) = Ok t' ->
  table_readable t' /\ any_reorders t' = false /\ finalized_ t' = Finalized.
Proof.
  intros H. apply finalize_Ok in H as (_ & Hfin & H).
  apply normalize_order_Ok in H as (O1 & O2 & O3 & _).
  apply revert_if_descending_settles in O1 as (W1 & R1).
  apply revert_if_descending_settles in O2 as (W2 & R2).
  apply revert_if_descending_settles in O3 as (W3 & R3).
  unfold table_readable, any_reorders. by rewrite R1, R2, R3.
Qed.

(** C10: on the table that finalize has returned, running the three reorder
    statements of finalize a second time succeeds and changes nothing: each
    statement returns its pair as it found it (a reversed pair is no longer
    descending, an untouched pair repeats its negative decision), and the
    swap loop is not entered. *)
Theorem reorder_decision_idempotent {k} (t t' : PiecewiseLinearTwoPhaseMaterialParams k) :
  outcome (finalize t) = Ok t' ->
  outcome (normalize_order t') = Ok t' /\
  Forall (fun c => outcome (revert_if_descending k (fst c) (snd c)) = Ok c) (curves t') /\
  count_events is_reversal (trace (normalize_order t')) = 0.
Proof.
  intros H.
  destruct (finalize_settles t t' H) as (Hwf & Hno & _).
  rewrite (normalize_order_settled t' Hwf Hno).
  unfold any_reorders in Hno. apply orb_false_iff in Hno as [Hno R3].
  apply orb_false_iff in Hno as [R1 R2].
  destruct Hwf as (W1 & W2 & W3).
  split; [done|]. split.
  - unfold curves.
    repeat apply List.Forall_cons; try apply List.Forall_nil; simpl.
    + by rewrite (revert_if_descending_settled k _ _ W1 R1).
    + by rewrite (revert_if_descending_settled k _ _ W2 R2).
    + by rewrite (revert_if_descending_settled k _ _ W3 R3).
  - unfold trace. cbn [fst]. rewrite !count_events_app.
    by rewrite !count_reversal_order_tests.
Qed.

Lemma make_view_finalized {k} vk (t : PiecewiseLinearTwoPhaseMaterialParams k) :
  finalized_ t = Finalized ->
  make_view vk t =
  (replicate 6 GuardCheck ++ trace (finalize (view_before_finalize vk t)),
   outcome (finalize (view_before_finalize vk t))).
Proof.
  intros Hfin.
  unfold make_view, SwPcwnSamples, pcwnSamples, SwKrwSamples, krwSamples,
    SwKrnSamples, krnSamples, make_buffer_view, make_params, view_before_finalize.
  rewrite Hfin. reflexivity.
Qed.

Lemma finalize_view_settled {k} vk (t : PiecewiseLinearTwoPhaseMaterialParams k) :
  table_readable t -> any_reorders t = false ->
  finalize (view_before_finalize vk t) =
  (GuardFinalize ::
     order_tests (SwPcwnSamples_ t) (pcwnSamples_ t) ++
     order_tests (SwKrwSamples_ t) (krwSamples_ t) ++
     order_tests (SwKrnSamples_ t) (krnSamples_ t),
   Ok (mark_finalized (view_before_finalize vk t))).
Proof.
  intros Hwf Hno. rewrite finalize_unfinalized by done.
  by rewrite (normalize_order_settled (mark_finalized (view_before_finalize vk t)) Hwf Hno).
Qed.

(** C6: for a table [t] that finalize has returned (its sequences are then
    non-empty) and any view container, make_view succeeds, and each of the
    six accessors of the view returns the sequence that the same accessor
    returns on [t]. *)
Theorem make_view_exposes_the_sequences {k} (vk : container_kind)
    (t0 t : PiecewiseLinearTwoPhaseMaterialParams k) :
  outcome (finalize t0) = Ok t ->
  exists v : PiecewiseLinearTwoPhaseMaterialParams vk,
    outcome (make_view vk t) = Ok v /\
    Forall2 (fun accessor stored => outcome (accessor t) = Ok stored)
            accessors (sequences t) /\
    Forall2 (fun accessor stored => outcome (accessor v) = Ok stored)
            accessors (sequences t).
Proof.
  intros H. destruct (finalize_settles t0 t H) as (Hwf & Hno & Hfin).
  exists (mark_finalized (view_before_finalize vk t)).
  rewrite (make_view_finalized vk t Hfin), (finalize_view_settled vk t Hwf Hno).
  split; [done|].
  split; unfold accessors, sequences;
    repeat apply List.Forall2_cons; try apply List.Forall2_nil;
    unfold SwPcwnSamples, pcwnSamples, SwKrwSamples, krwSamples, SwKrnSamples, krnSamples;
    try rewrite Hfin; reflexivity.
Qed.

(** C7, as amended: make_view reads the six sequences through the guarded
    accessors and hands them to the six-sequence constructor, which runs
    finalize on the view: the view's own guard goes from unfinalized to
    finalized, and the orientation test of each curve is evaluated again,
    followed by the gate test where the curve is descending.  On a table
    that finalize has returned every such decision is negative: the swap
    loop is not entered, no error is raised, and the view holds the
    sequences of the source. *)
Theorem make_view_finalizes_the_view {k} (vk : container_kind)
    (t0 t : PiecewiseLinearTwoPhaseMaterialParams k) :
  outcome (finalize t0) = Ok t ->
  make_view vk t =
    (replicate 6 GuardCheck ++ trace (finalize (view_before_finalize vk t)),
     outcome (finalize (view_before_finalize vk t))) /\
  finalized_ (view_before_finalize vk t) = Unfinalized /\
  finalize (view_before_finalize vk t) =
    (GuardFinalize ::
       order_tests (SwPcwnSamples_ t) (pcwnSamples_ t) ++
       order_tests (SwKrwSamples_ t) (krwSamples_ t) ++
       order_tests (SwKrnSamples_ t) (krnSamples_ t),
     Ok (mark_finalized (view_before_finalize vk t))) /\
  Forall (fun c => descending (fst c) && gate (fst c) (snd c) = false) (curves t) /\
  count_events is_guard_finalize (trace (make_view vk t)) = 1 /\
  count_events is_orientation_test (trace (make_view vk t)) = 3 /\
  count_events is_reversal (trace (make_view vk t)) = 0.
Proof.
  intros H. destruct (finalize_settles t0 t H) as (Hwf & Hno & Hfin).
  rewrite (make_view_finalized vk t Hfin), (finalize_view_settled vk t Hwf Hno).
  split; [done|]. split; [done|]. split; [done|].
  unfold any_reorders, reorders in Hno. apply orb_false_iff in Hno as [Hno R3].
  apply orb_false_iff in Hno as [R1 R2].
  split; [by repeat constructor|].
  unfold trace, order_tests. simpl.
  destruct (descending (SwPcwnSamples_ t)), (descending (SwKrwSamples_ t)),
    (descending (SwKrnSamples_ t)); simpl in *; done.
Qed.

End Settled.

(** ** Element access out of bounds *)

Section Bounds.
Context {T : Traits}.
Implicit Types x y : ValueVector.





End Bounds.

(** ** The statements on the sample tables *)

Section OnSamples.
Import Samples.



Lemma mixed_view_wf : table_wf mixed_view.
Proof. repeat split; done. Qed.

Lemma settled_view_wf : table_wf settled_view.
Proof. repeat split; done. Qed.

Lemma finalize_mixed : outcome (finalize mixed) = Ok mixed_finalized.
Proof. reflexivity. Qed.




Lemma finalize_immutable_throws_or_keeps_witness :
  outcome (finalize mixed_view) = Err (LogicError immutable_message) /\
  outcome (finalize settled_view) = Ok (mark_finalized settled_view) /\
  count_events is_reversal (trace (finalize settled_view)) = 0.
Proof.
  split.
  - apply (finalize_immutable_throws_or_keeps mixed_view eq_refl eq_refl mixed_view_wf).
    apply any_reorders_Exists. reflexivity.
  - apply (finalize_immutable_throws_or_keeps settled_view eq_refl eq_refl settled_view_wf).
    intros Hex. apply any_reorders_Exists in Hex. vm_compute in Hex. discriminate Hex.
Defined.

Lemma accessors_guarded_by_finalize_witness :
  Forall (fun accessor => outcome (accessor mixed) = Err NotFinalized) accessors /\
  Forall2 (fun accessor stored => outcome (accessor mixed_finalized) = Ok stored)
          accessors (sequences mixed_finalized).
Proof.
  destruct (accessors_guarded_by_finalize mixed) as (_ & Hbefore & Hafter).
  split; [exact (Hbefore eq_refl)|exact (Hafter mixed_finalized finalize_mixed)].
Defined.

Lemma ascending_samples_unchanged_witness :
  exists t,
    outcome (make_params owning Sw_ascending kr_rising Sw_ascending pc_rising
               Sw_ascending pc_falling) = Ok t /\
    (is_mutable owning = true ->
     outcome (populate_and_finalize owning Sw_ascending kr_rising Sw_ascending pc_rising
                Sw_ascending pc_falling) = Ok t) /\
    sequences t =
      [Sw_ascending; kr_rising; Sw_ascending; pc_rising; Sw_ascending; pc_falling].
Proof.
  assert (pair_wf (T:=double_traits) Sw_ascending kr_rising) as H1 by (split; done).
  assert (pair_wf (T:=double_traits) Sw_ascending pc_rising) as H2 by (split; done).
  assert (pair_wf (T:=double_traits) Sw_ascending pc_falling) as H3 by (split; done).
  exact (ascending_samples_unchanged (T:=double_traits) owning _ _ _ _ _ _
           H1 H2 H3 eq_refl eq_refl eq_refl).
Defined.

Lemma make_view_exposes_the_sequences_witness :
  exists v : PiecewiseLinearTwoPhaseMaterialParams const_view,
    outcome (make_view const_view mixed_finalized) = Ok v /\
    Forall2 (fun accessor stored => outcome (accessor mixed_finalized) = Ok stored)
            accessors (sequences mixed_finalized) /\
    Forall2 (fun accessor stored => outcome (accessor v) = Ok stored)
            accessors (sequences mixed_finalized).
Proof.
  exact (make_view_exposes_the_sequences const_view mixed mixed_finalized finalize_mixed).
Defined.

(** C7, as stated, fails: building the view of a finalized table calls the
    view's own [EnsureFinalized::finalize()], taking its guard from
    unfinalized to finalized, and evaluates the orientation test of every
    curve and the gate test of the descending one. *)
Lemma make_view_runs_guard_and_order_tests :
  outcome (finalize mixed) = Ok mixed_finalized /\
  trace (make_view const_view mixed_finalized) =
    [GuardCheck; GuardCheck; GuardCheck; GuardCheck; GuardCheck; GuardCheck;
     GuardFinalize; OrientationTest true; GateTest false;
     OrientationTest false; OrientationTest false] /\
  count_events is_guard_finalize (trace (make_view const_view mixed_finalized)) = 1 /\
  count_events is_orientation_test (trace (make_view const_view mixed_finalized)) = 3 /\
  finalized_ (view_before_finalize const_view mixed_finalized) = Unfinalized /\
  exists v, outcome (make_view const_view mixed_finalized) = Ok v /\
            finalized_ v = Finalized.
Proof.
  repeat split. eexists. split; reflexivity.
Qed.

Lemma make_view_finalizes_the_view_witness :
  finalize (view_before_finalize const_view mixed_finalized) =
    (GuardFinalize ::
       order_tests (SwPcwnSamples_ mixed_finalized) (pcwnSamples_ mixed_finalized) ++
       order_tests (SwKrwSamples_ mixed_finalized) (krwSamples_ mixed_finalized) ++
       order_tests (SwKrnSamples_ mixed_finalized) (krnSamples_ mixed_finalized),
     Ok (mark_finalized (view_before_finalize const_view mixed_finalized))) /\
  count_events is_reversal (trace (make_view const_view mixed_finalized)) = 0.
Proof.
  destruct (make_view_finalizes_the_view const_view mixed mixed_finalized finalize_mixed)
    as (_ & _ & Hfin & _ & _ & _ & Hrev).
  split; [exact Hfin|exact Hrev].
Defined.

Lemma pairs_keep_equal_lengths_witness :
  (exists p', outcome (setKrwSamples mixed Sw_ascending kr_rising) = Ok p' /\
              SwKrwSamples_ p' = Sw_ascending /\ krwSamples_ p' = kr_rising /\
              equal_lengths p') /\
  equal_lengths mixed_finalized.
Proof.
  destruct (pairs_keep_equal_lengths mixed) as (_ & Hset & Hfin & _).
  split.
  - apply (Hset Sw_ascending kr_rising); [reflexivity|repeat split].
  - apply (Hfin mixed_finalized); [repeat split|exact finalize_mixed].
Defined.



Lemma reorder_decision_idempotent_witness :
  outcome (normalize_order mixed_finalized) = Ok mixed_finalized /\
  Forall (fun c => outcome (revert_if_descending owning (fst c) (snd c)) = Ok c)
         (curves mixed_finalized) /\
  count_events is_reversal (trace (normalize_order mixed_finalized)) = 0.
Proof.
  exact (reorder_decision_idempotent mixed mixed_finalized finalize_mixed).
Defined.

End OnSamples.

(** ** Beyond equal lengths: what the reversal does to a value sequence of
       another length *)

Section Mismatch.
Context {T : Traits}.
Implicit Types x y sw vals : ValueVector.

Lemma std_swap_app (v w : ValueVector) i j a b :
  v !! i = Some a -> v !! j = Some b ->
  std_swap (v ++ w) i j = ret (<[j := a]> (<[i := b]> v) ++ w).
Proof.
  intros Ha Hb.
  rewrite (std_swap_in_range (v ++ w) i j a b) by (by apply lookup_app_l_Some).
  apply lookup_lt_Some in Ha, Hb. unfold ValueVector in *.
  rewrite (insert_app_l v w i) by done.
  by rewrite insert_app_l by (by rewrite length_insert).
Qed.

Lemma swap_loop_mirrored_app osw ovals w remaining k sw vals :
  length osw = length ovals ->
  k + remaining = length osw / 2 ->
  mirrored k osw sw -> mirrored k ovals vals ->
  exists sw' vals',
    swap_loop remaining k sw (vals ++ w) = ret (sw', vals' ++ w) /\
    mirrored (length osw / 2) osw sw' /\ mirrored (length osw / 2) ovals vals'.
Proof.
  intros Hlen.
  pose proof (Nat.div_mod_eq (length osw) 2) as Hdiv.
  pose proof (Nat.mod_upper_bound (length osw) 2) as Hmod.
  revert k sw vals.
  induction remaining as [|r IH]; intros k sw vals Hk Hsw Hvals.
  - exists sw, vals. replace (length osw / 2) with k by lia. done.
  - simpl.
    destruct (Hsw) as [Hlsw _]. destruct (Hvals) as [Hlvals _].
    rewrite Hlsw.
    destruct (lookup_lt_is_Some_2 sw k) as [a Ha]; [lia|].
    destruct (lookup_lt_is_Some_2 sw (length osw - k - 1)) as [b Hb]; [lia|].
    destruct (lookup_lt_is_Some_2 vals k) as [c Hc]; [lia|].
    destruct (lookup_lt_is_Some_2 vals (length osw - k - 1)) as [d Hd]; [lia|].
    rewrite (std_swap_in_range _ _ _ _ _ Ha Hb), bind_ret_l.
    rewrite (std_swap_app _ w _ _ _ _ Hc Hd), bind_ret_l.
    apply IH; [lia| |].
    + apply mirrored_step; [done|lia|done|done].
    + rewrite Hlen in Hd. replace (length osw - k - 1) with (length ovals - k - 1) by lia.
      apply mirrored_step; [done|lia|done|done].
Qed.

Lemma swap_loop_longer x y :
  length x <= length y ->
  swap_loop (length x / 2) 0 x y =
  ret (reverse x, reverse (take (length x) y) ++ drop (length x) y).
Proof.
  intros Hle.
  assert (length x = length (take (length x) y)) as Hlen by (by rewrite length_take_le).
  destruct (swap_loop_mirrored_app x (take (length x) y) (drop (length x) y)
              (length x / 2) 0 x (take (length x) y) Hlen)
    as (x' & y' & Hloop & Hx & Hy); [lia|apply mirrored_start|apply mirrored_start|].
  rewrite take_drop in Hloop. rewrite Hloop.
  rewrite Hlen in Hy at 1.
  by rewrite (mirrored_half _ _ Hx), (mirrored_half _ _ Hy).
Qed.

Lemma swap_loop_shorter x y :
  length y < length x -> 2 <= length x ->
  swap_loop (length x / 2) 0 x y = raise OutOfBounds.
Proof.
  intros Hlt H2.
  destruct (length x / 2) as [|r] eqn:Hhalf.
  { pose proof (Nat.div_mod_eq (length x) 2). pose proof (Nat.mod_upper_bound (length x) 2). lia. }
  simpl.
  destruct (lookup_lt_is_Some_2 x 0) as [a Ha]; [lia|].
  destruct (lookup_lt_is_Some_2 x (length x - 0 - 1)) as [b Hb]; [lia|].
  rewrite (std_swap_in_range _ _ _ _ _ Ha Hb), bind_ret_l.
  assert (y !! (length x - 0 - 1) = None) as Hnone by (apply lookup_ge_None_2; lia).
  unfold std_swap, at_index. rewrite Hnone.
  by destruct (y !! 0).
Qed.

Lemma swap_loop_short_saturations x y :
  length x <= 1 -> swap_loop (length x / 2) 0 x y = ret (x, y).
Proof.
  intros Hle. replace (length x / 2) with 0; [done|].
  symmetry. apply Nat.div_small. lia.
Qed.

Lemma gate_true_ends x y :
  gate x y = true ->
  exists f b, head x = Some f /\ last y = Some b /\ scalar_gt f b = true.
Proof.
  unfold gate. destruct (head x) as [f|]; [|done]. destruct (last y) as [b|]; [|done].
  eauto.
Qed.

Lemma swapOrder_gated k x y :
  gate x y = true ->
  swapOrderIfPossibleThrowOtherwise_ k x y =
  (emit (GateTest true) ;;
   if is_mutable k
   then emit Reversal ;; swap_loop (length x / 2) 0 x y
   else raise (LogicError immutable_message)).
Proof.
  intros (f & b & Hf & Hb & Hgt)%gate_true_ends.
  unfold swapOrderIfPossibleThrowOtherwise_.
  by rewrite (front_head _ _ Hf), bind_ret_l, (back_last _ _ Hb), bind_ret_l, Hgt.
Qed.


(** X2: over a mutable container, when the first saturation exceeds the last
    value and there are fewer values than saturations,
    swapOrderIfPossibleThrowOtherwise_ indexes the values past their end in
    the first iteration of its loop. *)
Theorem reversal_overruns_shorter_values k x y :
  is_mutable k = true ->
  gate x y = true ->
  length y < length x ->
  swapOrderIfPossibleThrowOtherwise_ k x y =
    ([GateTest true; Reversal], Err OutOfBounds).
Proof.
  intros Hmut Hgate Hlt.
  assert (2 <= length x) as H2.
  { apply gate_true_ends in Hgate as (f & b & _ & Hb & _).
    destruct y; [done|]. simpl in Hlt. lia. }
  by rewrite (swapOrder_gated k x y Hgate), Hmut, (swap_loop_shorter x y Hlt H2).
Qed.

End Mismatch.

(** ** finalize on tables of any shape *)

Section AnyShape.
Context {T : Traits}.
Implicit Types x y : ValueVector.

Lemma outcome_bind_Err {A B} (m : M A) (f : A -> M B) (e : error) :
  outcome (bind m f) = Err e ->
  outcome m = Err e \/ exists a, outcome m = Ok a /\ outcome (f a) = Err e.
Proof.
  rewrite outcome_bind. destruct (outcome m) as [a|e'].
  - intros H. right. eauto.
  - intros [= ->]. by left.
Qed.

Lemma std_swap_Err (v : ValueVector) i j e :
  outcome (std_swap v i j) = Err e -> e = OutOfBounds.
Proof.
  unfold std_swap, at_index.
  destruct (v !! i); [|by intros [= <-]]. destruct (v !! j); [done|by intros [= <-]].
Qed.

Lemma swap_loop_Err remaining k x y e :
  outcome (swap_loop remaining k x y) = Err e -> e = OutOfBounds.
Proof.
  revert k x y. induction remaining as [|r IH]; intros k x y H; [done|].
  simpl in H.
  apply outcome_bind_Err in H as [H|(x1 & _ & H)]; [by apply std_swap_Err in H|].
  apply outcome_bind_Err in H as [H|(y1 & _ & H)]; [by apply std_swap_Err in H|].
  by apply IH in H.
Qed.

Lemma std_swap_trace (v : ValueVector) i j : trace (std_swap v i j) = [].
Proof. unfold std_swap, at_index. by destruct (v !! i), (v !! j). Qed.

Lemma trace_bind_nil {A B} (m : M A) (f : A -> M B) :
  trace m = [] -> (forall a, trace (f a) = []) -> trace (bind m f) = [].
Proof.
  destruct m as [tr [a|e]]; simpl; intros ->; [|done].
  intros Hf. unfold trace in Hf. by rewrite Hf.
Qed.

Lemma swap_loop_trace remaining k x y : trace (swap_loop remaining k x y) = [].
Proof.
  revert k x y. induction remaining as [|r IH]; intros k x y; [done|].
  simpl. apply trace_bind_nil; [apply std_swap_trace|]. intros x1.
  apply trace_bind_nil; [apply std_swap_trace|]. intros y1. apply IH.
Qed.

(** One statement of lines 89-96, by cases on what it reads. *)
Lemma revert_if_descending_cases k x y :
  (x = [] /\ revert_if_descending k x y = raise OutOfBounds) \/
  (x <> [] /\ descending x = false /\
   revert_if_descending k x y = ([OrientationTest false], Ok (x, y))) \/
  (descending x = true /\ y = [] /\
   revert_if_descending k x y = ([OrientationTest true], Err OutOfBounds)) \/
  (descending x = true /\ y <> [] /\ gate x y = false /\
   revert_if_descending k x y = ([OrientationTest true; GateTest false], Ok (x, y))) \/
  (descending x = true /\ gate x y = true /\ is_mutable k = false /\
   revert_if_descending k x y =
     ([OrientationTest true; GateTest true], Err (LogicError immutable_message))) \/
  (descending x = true /\ gate x y = true /\ is_mutable k = true /\
   revert_if_descending k x y =
     ([OrientationTest true; GateTest true; Reversal],
      outcome (swap_loop (length x / 2) 0 x y))).
Proof.
  destruct (decide (x = [])) as [->|Hne]; [by left|]. right.
  apply head_is_Some in Hne as Hh. apply last_is_Some in Hne as Hl.
  destruct Hh as [fx Hfx], Hl as [bx Hbx].
  unfold revert_if_descending, descending, gate. rewrite Hfx, Hbx.
  rewrite (front_head _ _ Hfx), bind_ret_l, (back_last _ _ Hbx), bind_ret_l.
  destruct (scalar_gt fx bx); [right|by left].
  unfold swapOrderIfPossibleThrowOtherwise_.
  rewrite (front_head _ _ Hfx), bind_ret_l.
  destruct (decide (y = [])) as [->|Hney]; [by left|]. right.
  apply last_is_Some in Hney as Hly. destruct Hly as [b_y Hby]. rewrite Hby.
  rewrite (back_last _ _ Hby), bind_ret_l.
  destruct (scalar_gt fx b_y); [right|by left].
  destruct (is_mutable k); [right|by left].
  repeat split; try done.
  pose proof (swap_loop_trace (length x / 2) 0 x y) as Htr.
  destruct (swap_loop (length x / 2) 0 x y) as [tr r]. simpl in Htr. by subst tr.
Qed.

Lemma revert_if_descending_Err k x y e :
  outcome (revert_if_descending k x y) = Err e ->
  e = OutOfBounds \/ (e = LogicError immutable_message /\ is_mutable k = false).
Proof.
  destruct (revert_if_descending_cases k x y)
    as [(_ & ->)|[(_ & _ & ->)|[(_ & _ & ->)|[(_ & _ & _ & ->)|[(_ & _ & Hmut & ->)|
        (_ & _ & _ & ->)]]]]]; unfold outcome at 1; cbn [snd]; try done.
  - intros [= <-]. by left.
  - intros [= <-]. by left.
  - intros [= <-]. by right.
  - intros H. left. by apply swap_loop_Err in H.
Qed.

Lemma revert_if_descending_Permutation k x y x' y' :
  outcome (revert_if_descending k x y) = Ok (x', y') ->
  Permutation x' x /\ Permutation y' y.
Proof.
  destruct (revert_if_descending_cases k x y)
    as [(_ & ->)|[(_ & _ & ->)|[(_ & _ & ->)|[(_ & _ & _ & ->)|[(_ & _ & _ & ->)|
        (_ & _ & _ & ->)]]]]]; unfold outcome; cbn [snd]; try done.
  - by intros [= <- <-].
  - by intros [= <- <-].
  - destruct (decide (length x <= length y)) as [Hle|Hgt].
    + rewrite (swap_loop_longer x y Hle). simpl. intros [= <- <-].
      split; [apply reverse_Permutation|].
      rewrite reverse_Permutation. by rewrite take_drop.
    + destruct (decide (2 <= length x)) as [H2|H1].
      * by rewrite (swap_loop_shorter x y) by lia.
      * rewrite (swap_loop_short_saturations x y) by lia. simpl. by intros [= <- <-].
Qed.

Lemma revert_if_descending_immutable k x y x' y' :
  is_mutable k = false ->
  outcome (revert_if_descending k x y) = Ok (x', y') ->
  revert_if_descending k x y = (order_tests x y, Ok (x, y)) /\ x' = x /\ y' = y.
Proof.
  intros Hmut. unfold order_tests.
  destruct (revert_if_descending_cases k x y)
    as [(_ & ->)|[(_ & Hd & ->)|[(_ & _ & ->)|[(Hd & _ & Hg & ->)|[(_ & _ & _ & ->)|
        (_ & _ & Hmut' & _)]]]]]; simpl; try done; try congruence.
  - rewrite Hd. by intros [= <- <-].
  - rewrite Hd, Hg. by intros [= <- <-].
Qed.

(** X3: where every saturation sequence is non-empty and not descending,
    finalize evaluates the three orientation tests and nothing else: the
    value sequences are not read, so values of any length, or none, are
    accepted and the six sequences are kept as they are, over every
    container. *)
Theorem ascending_saturations_leave_values_unread {k}
    (t : PiecewiseLinearTwoPhaseMaterialParams k) :
  finalized_ t = Unfinalized ->
  all_nonempty t ->
  Forall (fun c => descending (fst c) = false) (curves t) ->
  finalize t =
    ([GuardFinalize; OrientationTest false; OrientationTest false; OrientationTest false],
     Ok (mark_finalized t)).
Proof.
  intros Hun (N1 & N2 & N3) Hasc.
  unfold curves in Hasc. rewrite !Forall_cons in Hasc. simpl in Hasc.
  destruct Hasc as (A1 & A2 & A3 & _).
  rewrite (finalize_unfinalized t Hun).
  rewrite (normalize_order_settled (mark_finalized t)).
  - unfold order_tests. simpl. by rewrite A1, A2, A3.
  - repeat split; simpl; try done; congruence.
  - unfold any_reorders, reorders. simpl. by rewrite A1, A2, A3.
Qed.

(** X4: a finalize that succeeds only rearranges: each of the six sequences
    it returns is a permutation of the sequence it was given, whatever the
    container and whatever the lengths of the sequences. *)
Theorem finalize_permutes_each_sequence {k}
    (t t' : PiecewiseLinearTwoPhaseMaterialParams k) :
  outcome (finalize t) = Ok t' ->
  Forall2 Permutation (sequences t') (sequences t).
Proof.
  intros H. apply finalize_Ok in H as (_ & _ & H).
  apply normalize_order_Ok in H as (O1 & O2 & O3 & _). simpl in *.
  apply revert_if_descending_Permutation in O1 as [P1 Q1].
  apply revert_if_descending_Permutation in O2 as [P2 Q2].
  apply revert_if_descending_Permutation in O3 as [P3 Q3].
  unfold sequences. by repeat apply List.Forall2_cons.
Qed.

(** X5: finalize fails in three ways only: an element access out of bounds,
    a guard that was already finalized, or the logic error with the message
    of line 261; and the logic error is raised over an immutable container
    only, never over a mutable one. *)
Theorem finalize_failure_modes {k} (t : PiecewiseLinearTwoPhaseMaterialParams k) (e : error) :
  outcome (finalize t) = Err e ->
  e = OutOfBounds \/ e = AlreadyFinalized \/
  (e = LogicError immutable_message /\ is_mutable k = false).
Proof.
  destruct (finalized_ t) eqn:Hg.
  - rewrite (finalize_unfinalized t Hg). simpl. unfold normalize_order. intros H.
    assert (e = OutOfBounds \/ (e = LogicError immutable_message /\ is_mutable k = false))
      as He; [|tauto].
    apply outcome_bind_Err in H as [H|(p1 & _ & H)]; [by apply revert_if_descending_Err in H|].
    apply outcome_bind_Err in H as [H|(p2 & _ & H)]; [by apply revert_if_descending_Err in H|].
    apply outcome_bind_Err in H as [H|(p3 & _ & H)]; [by apply revert_if_descending_Err in H|].
    done.
  - rewrite (finalize_finalized t Hg). simpl. intros [= <-]. tauto.
Qed.

(** X6: over an immutable container a finalize that succeeds has changed no
    sequence: it returns the table it was given with the guard finalized,
    after the orientation and gate tests alone, for sequences of any
    length. *)
Theorem immutable_finalize_changes_no_sequence {k}
    (t t' : PiecewiseLinearTwoPhaseMaterialParams k) :
  is_mutable k = false ->
  outcome (finalize t) = Ok t' ->
  t' = mark_finalized t /\
  finalize t =
    (GuardFinalize ::
       order_tests (SwPcwnSamples_ t) (pcwnSamples_ t) ++
       order_tests (SwKrwSamples_ t) (krwSamples_ t) ++
       order_tests (SwKrnSamples_ t) (krnSamples_ t),
     Ok (mark_finalized t)).
Proof.
  intros Hmut H. apply finalize_Ok in H as (Hun & Hfin & H).
  apply normalize_order_Ok in H as H'. destruct H' as (O1 & O2 & O3 & _). simpl in *.
  apply (revert_if_descending_immutable _ _ _ _ _ Hmut) in O1 as (E1 & X1 & Y1).
  apply (revert_if_descending_immutable _ _ _ _ _ Hmut) in O2 as (E2 & X2 & Y2).
  apply (revert_if_descending_immutable _ _ _ _ _ Hmut) in O3 as (E3 & X3 & Y3).
  assert (t' = mark_finalized t) as ->.
  { destruct t', t. simpl in *. by subst. }
  split; [done|].
  rewrite (finalize_unfinalized t Hun). unfold normalize_order. simpl.
  rewrite E1, E2, E3. unfold bind, ret. cbn [fst snd]. by rewrite app_nil_r.
Qed.

Lemma finalize_first_curve_throws {k} (t : PiecewiseLinearTwoPhaseMaterialParams k) :
  finalized_ t = Unfinalized ->
  is_mutable k = false ->
  reorders (SwPcwnSamples_ t) (pcwnSamples_ t) = true ->
  finalize t =
    ([GuardFinalize; OrientationTest true; GateTest true],
     Err (LogicError immutable_message)).
Proof.
  intros Hun Hmut Hre. rewrite (finalize_unfinalized t Hun). unfold normalize_order. simpl.
  unfold reorders in Hre. apply andb_true_iff in Hre as [Hd Hg].
  destruct (revert_if_descending_cases k (SwPcwnSamples_ t) (pcwnSamples_ t))
    as [(Hx & _)|[(_ & Hd' & _)|[(_ & Hy & _)|[(_ & _ & Hg' & _)|[(_ & _ & _ & E)|
        (_ & _ & Hmut' & _)]]]]]; try congruence.
  - by rewrite Hx in Hd.
  - rewrite Hy in Hg. unfold gate in Hg. simpl in Hg.
    by destruct (head (SwPcwnSamples_ t)).
  - by rewrite E.
Qed.

(** X7: finalize examines the curves in the order capillary pressure,
    wetting permeability, non-wetting permeability and returns the first
    failure without examining the later curves: an empty first saturation
    sequence ends it at once; over an immutable container a first curve that
    passes both comparisons raises the logic error whatever the other curves
    hold; and an empty second saturation sequence is reached only after the
    tests of a first curve that is left alone. *)
Theorem finalize_stops_at_first_failing_curve {k}
    (t : PiecewiseLinearTwoPhaseMaterialParams k) :
  finalized_ t = Unfinalized ->
  (SwPcwnSamples_ t = [] -> finalize t = ([GuardFinalize], Err OutOfBounds)) /\
  (is_mutable k = false -> reorders (SwPcwnSamples_ t) (pcwnSamples_ t) = true ->
   finalize t =
     ([GuardFinalize; OrientationTest true; GateTest true],
      Err (LogicError immutable_message))) /\
  (readable (SwPcwnSamples_ t) (pcwnSamples_ t) ->
   reorders (SwPcwnSamples_ t) (pcwnSamples_ t) = false ->
   SwKrwSamples_ t = [] ->
   finalize t =
     (GuardFinalize :: order_tests (SwPcwnSamples_ t) (pcwnSamples_ t), Err OutOfBounds)).
Proof.
  intros Hun. rewrite (finalize_unfinalized t Hun).
  split; [|split].
  - unfold normalize_order. simpl. by intros ->.
  - intros Hmut Hre. rewrite <- (finalize_unfinalized t Hun).
    by apply finalize_first_curve_throws.
  - unfold normalize_order. simpl. intros Hread Hre ->.
    rewrite (revert_if_descending_settled k _ _ Hread Hre).
    unfold bind. cbn [fst snd]. simpl. by rewrite app_nil_r.
Qed.

End AnyShape.

(** ** Setters in sequence *)

Section SetterSequences.
Context {T : Traits}.
Implicit Types a b c d : ValueVector.

Lemma setPcnwSamples_stores {k} (p : PiecewiseLinearTwoPhaseMaterialParams k) a b :
  length a = length b ->
  setPcnwSamples p a b =
  ret {| finalized_ := finalized_ p;
         SwPcwnSamples_ := a; SwKrwSamples_ := SwKrwSamples_ p;
         SwKrnSamples_ := SwKrnSamples_ p; pcwnSamples_ := b;
         krwSamples_ := krwSamples_ p; krnSamples_ := krnSamples_ p |}.
Proof.
  intros Hlen. unfold setPcnwSamples.
  by rewrite (set_samples_equal_length _ _ _ _ Hlen), bind_ret_l.
Qed.

Lemma setKrwSamples_stores {k} (p : PiecewiseLinearTwoPhaseMaterialParams k) a b :
  length a = length b ->
  setKrwSamples p a b =
  ret {| finalized_ := finalized_ p;
         SwPcwnSamples_ := SwPcwnSamples_ p; SwKrwSamples_ := a;
         SwKrnSamples_ := SwKrnSamples_ p; pcwnSamples_ := pcwnSamples_ p;
         krwSamples_ := b; krnSamples_ := krnSamples_ p |}.
Proof.
  intros Hlen. unfold setKrwSamples.
  by rewrite (set_samples_equal_length _ _ _ _ Hlen), bind_ret_l.
Qed.

Lemma setKrnSamples_stores {k} (p : PiecewiseLinearTwoPhaseMaterialParams k) a b :
  length a = length b ->
  setKrnSamples p a b =
  ret {| finalized_ := finalized_ p;
         SwPcwnSamples_ := SwPcwnSamples_ p; SwKrwSamples_ := SwKrwSamples_ p;
         SwKrnSamples_ := a; pcwnSamples_ := pcwnSamples_ p;
         krwSamples_ := krwSamples_ p; krnSamples_ := b |}.
Proof.
  intros Hlen. unfold setKrnSamples.
  by rewrite (set_samples_equal_length _ _ _ _ Hlen), bind_ret_l.
Qed.

(** X8: with equally long inputs, a second call of a setter replaces what
    the first call of the same setter stored, whatever the two lengths, and
    calls of setters for different curves can be exchanged. *)
Theorem setters_overwrite_and_commute {k} (p : PiecewiseLinearTwoPhaseMaterialParams k)
    a b c d :
  is_mutable k = true ->
  length a = length b ->
  length c = length d ->
  (p1 <- setPcnwSamples p a b ;; setPcnwSamples p1 c d) = setPcnwSamples p c d /\
  (p1 <- setKrwSamples p a b ;; setKrwSamples p1 c d) = setKrwSamples p c d /\
  (p1 <- setKrnSamples p a b ;; setKrnSamples p1 c d) = setKrnSamples p c d /\
  (p1 <- setPcnwSamples p a b ;; setKrwSamples p1 c d) =
    (p1 <- setKrwSamples p c d ;; setPcnwSamples p1 a b) /\
  (p1 <- setPcnwSamples p a b ;; setKrnSamples p1 c d) =
    (p1 <- setKrnSamples p c d ;; setPcnwSamples p1 a b) /\
  (p1 <- setKrwSamples p a b ;; setKrnSamples p1 c d) =
    (p1 <- setKrnSamples p c d ;; setKrwSamples p1 a b).
Proof.
  intros _ Hab Hcd.
  repeat split;
    rewrite ?(setPcnwSamples_stores p _ _ Hab), ?(setKrwSamples_stores p _ _ Hab),
      ?(setKrnSamples_stores p _ _ Hab), ?(setPcnwSamples_stores p _ _ Hcd),
      ?(setKrwSamples_stores p _ _ Hcd), ?(setKrnSamples_stores p _ _ Hcd), ?bind_ret_l;
    rewrite ?(setPcnwSamples_stores _ _ _ Hab), ?(setKrwSamples_stores _ _ _ Hab),
      ?(setKrnSamples_stores _ _ _ Hab), ?(setPcnwSamples_stores _ _ _ Hcd),
      ?(setKrwSamples_stores _ _ _ Hcd), ?(setKrnSamples_stores _ _ _ Hcd);
    reflexivity.
Qed.

(** X9: starting from any not yet finalized table, whatever it held, the
    three setters (given equally long inputs) followed by finalize do what
    the six-sequence constructor does with the same six sequences: the same
    tests, the same result. *)
Theorem setters_then_finalize_as_constructor {k}
    (p : PiecewiseLinearTwoPhaseMaterialParams k)
    (SwPcwn pcwn SwKrw krw SwKrn krn : ValueVector) :
  is_mutable k = true ->
  finalized_ p = Unfinalized ->
  length SwPcwn = length pcwn -> length SwKrw = length krw -> length SwKrn = length krn ->
  (t1 <- setPcnwSamples p SwPcwn pcwn ;;
   t2 <- setKrwSamples t1 SwKrw krw ;;
   t3 <- setKrnSamples t2 SwKrn krn ;;
   finalize t3) =
  make_params k SwPcwn pcwn SwKrw krw SwKrn krn /\
  (t1 <- setKrnSamples p SwKrn krn ;;
   t2 <- setKrwSamples t1 SwKrw krw ;;
   t3 <- setPcnwSamples t2 SwPcwn pcwn ;;
   finalize t3) =
  make_params k SwPcwn pcwn SwKrw krw SwKrn krn.
Proof.
  intros _ Hun H1 H2 H3. unfold make_params, initialized. rewrite <- Hun.
  split.
  - rewrite (setPcnwSamples_stores _ _ _ H1), bind_ret_l.
    rewrite (setKrwSamples_stores _ _ _ H2), bind_ret_l.
    by rewrite (setKrnSamples_stores _ _ _ H3), bind_ret_l.
  - rewrite (setKrnSamples_stores _ _ _ H3), bind_ret_l.
    rewrite (setKrwSamples_stores _ _ _ H2), bind_ret_l.
    by rewrite (setPcnwSamples_stores _ _ _ H1), bind_ret_l.
Qed.

(** X10: a setter does not consult or reset the guard and does not reorder.
    Called on a finalized table with a descending capillary-pressure curve
    that passes the gate, setPcnwSamples succeeds, the accessors hand out the
    two sequences as given, still descending, and make_view into an
    immutable container then fails with the logic error. *)
Theorem setter_after_finalize_is_not_normalized {k} (vk : container_kind)
    (t : PiecewiseLinearTwoPhaseMaterialParams k) (SwValues values : ValueVector) :
  is_mutable k = true ->
  finalized_ t = Finalized ->
  length SwValues = length values ->
  reorders SwValues values = true ->
  exists t',
    outcome (setPcnwSamples t SwValues values) = Ok t' /\
    outcome (SwPcwnSamples t') = Ok SwValues /\
    outcome (pcwnSamples t') = Ok values /\
    (is_mutable vk = false ->
     outcome (make_view vk t') = Err (LogicError immutable_message)).
Proof.
  intros _ Hfin Hlen Hre.
  rewrite (setPcnwSamples_stores t _ _ Hlen). eexists. split; [reflexivity|].
  unfold SwPcwnSamples, pcwnSamples. simpl. rewrite Hfin.
  split; [done|]. split; [done|].
  intros Hvk. rewrite make_view_finalized by done.
  change (outcome (?tr, ?r)) with r.
  by rewrite finalize_first_curve_throws.
Qed.

End SetterSequences.

(** ** Views of any table *)

Section ViewsOfAnyTable.
Context {T : Traits}.

(** X11: whatever table make_view is given, a view it returns was taken from
    a finalized table, is itself finalized, and holds in each of its six
    sequences a permutation of the corresponding sequence of the source;
    into an immutable container the six sequences are the source's own.
    When make_view fails, it fails with the guard's error (exactly when the
    source is not finalized), with an element access out of bounds, or, into
    an immutable container only, with the logic error. *)
Theorem make_view_returns_the_source_samples {k} (vk : container_kind)
    (t : PiecewiseLinearTwoPhaseMaterialParams k) :
  (forall v : PiecewiseLinearTwoPhaseMaterialParams vk,
     outcome (make_view vk t) = Ok v ->
     finalized_ t = Finalized /\ finalized_ v = Finalized /\
     Forall2 Permutation (sequences v) (sequences t) /\
     (is_mutable vk = false -> sequences v = sequences t)) /\
  (forall e, outcome (make_view vk t) = Err e ->
     (e = NotFinalized /\ finalized_ t = Unfinalized) \/
     (finalized_ t = Finalized /\
      (e = OutOfBounds \/ (e = LogicError immutable_message /\ is_mutable vk = false)))) /\
  (finalized_ t = Unfinalized -> make_view vk t = ([GuardCheck], Err NotFinalized)).
Proof.
  destruct (finalized_ t) eqn:Hg.
  - split; [|split].
    + intros v H. apply make_view_Ok in H as [Hfin _]. congruence.
    + intros e. unfold make_view, SwPcwnSamples. rewrite Hg. simpl.
      intros [= <-]. by left.
    + intros _. unfold make_view, SwPcwnSamples. by rewrite Hg.
  - rewrite (make_view_finalized vk t Hg). change (outcome (?tr, ?r)) with r.
    split; [|split]; [| |done].
    + intros v H. split; [done|].
      apply finalize_Ok in H as H'. destruct H' as (_ & Hfin & Hn).
      split; [done|].
      apply normalize_order_Ok in Hn as (O1 & O2 & O3 & _). simpl in *.
      split.
      * apply revert_if_descending_Permutation in O1 as [P1 Q1].
        apply revert_if_descending_Permutation in O2 as [P2 Q2].
        apply revert_if_descending_Permutation in O3 as [P3 Q3].
        unfold sequences. by repeat apply List.Forall2_cons.
      * intros Hvk. unfold sequences.
        apply (revert_if_descending_immutable _ _ _ _ _ Hvk) in O1 as (_ & -> & ->).
        apply (revert_if_descending_immutable _ _ _ _ _ Hvk) in O2 as (_ & -> & ->).
        by apply (revert_if_descending_immutable _ _ _ _ _ Hvk) in O3 as (_ & -> & ->).
    + intros e H. right. split; [done|].
      rewrite finalize_unfinalized in H by done. simpl in H. unfold normalize_order in H.
      apply outcome_bind_Err in H as [H|(p1 & _ & H)];
        [by apply revert_if_descending_Err in H|].
      apply outcome_bind_Err in H as [H|(p2 & _ & H)];
        [by apply revert_if_descending_Err in H|].
      apply outcome_bind_Err in H as [H|(p3 & _ & H)];
        [by apply revert_if_descending_Err in H|].
      done.
Qed.

End ViewsOfAnyTable.

(** ** The further statements on the sample tables *)

Section MoreOnSamples.
Import Samples.


Lemma reversal_overruns_shorter_values_witness :
  swapOrderIfPossibleThrowOtherwise_ owning Sw_descending one_value =
    ([GateTest true; Reversal], Err OutOfBounds).
Proof.
  apply (reversal_overruns_shorter_values (T:=double_traits) owning Sw_descending one_value);
    [reflexivity|reflexivity|simpl; lia].
Defined.

Lemma ascending_saturations_leave_values_unread_witness :
  finalize ascending_unpaired =
    ([GuardFinalize; OrientationTest false; OrientationTest false; OrientationTest false],
     Ok (mark_finalized ascending_unpaired)) /\
  ~ equal_lengths ascending_unpaired.
Proof.
  split.
  - apply (ascending_saturations_leave_values_unread ascending_unpaired);
      [reflexivity|repeat split; done|repeat constructor].
  - intros (H & _). discriminate H.
Defined.

Lemma finalize_permutes_each_sequence_witness :
  Forall2 Permutation (sequences mixed_finalized) (sequences mixed).
Proof.
  exact (finalize_permutes_each_sequence mixed mixed_finalized finalize_mixed).
Defined.

Lemma finalize_failure_modes_witness :
  OutOfBounds = OutOfBounds \/ OutOfBounds = AlreadyFinalized \/
  (OutOfBounds = LogicError immutable_message /\ is_mutable owning = false).
Proof.
  exact (finalize_failure_modes (default_params (T:=double_traits) owning) OutOfBounds eq_refl).
Defined.

Lemma immutable_finalize_changes_no_sequence_witness :
  mark_finalized settled_view = mark_finalized settled_view /\
  finalize settled_view =
    (GuardFinalize ::
       order_tests (SwPcwnSamples_ settled_view) (pcwnSamples_ settled_view) ++
       order_tests (SwKrwSamples_ settled_view) (krwSamples_ settled_view) ++
       order_tests (SwKrnSamples_ settled_view) (krnSamples_ settled_view),
     Ok (mark_finalized settled_view)).
Proof.
  exact (immutable_finalize_changes_no_sequence settled_view (mark_finalized settled_view)
           eq_refl eq_refl).
Defined.

Lemma finalize_stops_at_first_failing_curve_witness :
  finalize throwing_then_empty =
    ([GuardFinalize; OrientationTest true; GateTest true],
     Err (LogicError immutable_message)) /\
  finalize (default_params (T:=double_traits) owning) = ([GuardFinalize], Err OutOfBounds).
Proof.
  split.
  - apply (finalize_stops_at_first_failing_curve throwing_then_empty); reflexivity.
  - apply (finalize_stops_at_first_failing_curve (default_params (T:=double_traits) owning));
      reflexivity.
Defined.

Lemma setters_overwrite_and_commute_witness :
  (p1 <- setPcnwSamples mixed Sw_two Sw_two ;; setPcnwSamples p1 Sw_ascending kr_rising) =
    setPcnwSamples mixed Sw_ascending kr_rising /\
  (p1 <- setPcnwSamples mixed Sw_two Sw_two ;; setKrnSamples p1 Sw_ascending kr_rising) =
    (p1 <- setKrnSamples mixed Sw_ascending kr_rising ;; setPcnwSamples p1 Sw_two Sw_two).
Proof.
  destruct (setters_overwrite_and_commute (T:=double_traits) mixed Sw_two Sw_two Sw_ascending kr_rising)
    as (H1 & _ & _ & _ & H5 & _); [reflexivity|reflexivity|reflexivity|].
  split; [exact H1|exact H5].
Defined.

Lemma setters_then_finalize_as_constructor_witness :
  (t1 <- setPcnwSamples mixed Sw_ascending kr_rising ;;
   t2 <- setKrwSamples t1 Sw_two Sw_two ;;
   t3 <- setKrnSamples t2 Sw_descending pc_falling ;;
   finalize t3) =
  make_params owning Sw_ascending kr_rising Sw_two Sw_two Sw_descending pc_falling.
Proof.
  apply (setters_then_finalize_as_constructor (T:=double_traits) mixed
           Sw_ascending kr_rising Sw_two Sw_two Sw_descending pc_falling); reflexivity.
Defined.

Lemma setter_after_finalize_is_not_normalized_witness :
  exists t',
    outcome (setPcnwSamples mixed_finalized Sw_two Sw_two) = Ok t' /\
    outcome (SwPcwnSamples t') = Ok Sw_two /\
    outcome (pcwnSamples t') = Ok Sw_two /\
    (is_mutable const_view = false ->
     outcome (make_view const_view t') = Err (LogicError immutable_message)).
Proof.
  apply (setter_after_finalize_is_not_normalized (T:=double_traits) const_view mixed_finalized Sw_two Sw_two);
    reflexivity.
Defined.

Lemma make_view_returns_the_source_samples_witness :
  (forall v : PiecewiseLinearTwoPhaseMaterialParams const_view,
     outcome (make_view const_view mixed_finalized) = Ok v ->
     sequences v = sequences mixed_finalized) /\
  make_view const_view mixed = ([GuardCheck], Err NotFinalized).
Proof.
  split.
  - intros v H.
    destruct (make_view_returns_the_source_samples const_view mixed_finalized) as (Hok & _).
    destruct (Hok v H) as (_ & _ & _ & Hsame). exact (Hsame eq_refl).
  - destruct (make_view_returns_the_source_samples const_view mixed) as (_ & _ & Hun).
    exact (Hun eq_refl).
Defined.

End MoreOnSamples.
